(** * convert_data: CSV to JSON conversion with AES-256-CBC encryption

    A shallow embedding of [convert_data.py] and the properties of its
    transform-and-encrypt pipeline.

    The script is glue around four libraries.  What the script itself does
    (the order of the calls, the padding, the grouping, the validation gate,
    the error handling) is written out below.  The library primitives whose
    internals the script never sees are parameters of the sections that use
    them: the AES block permutation, the PBKDF2 pseudo-random function, the
    operating system's random source, the JSON decoder and encoder.  Each
    parameter comes with the part of its contract a proof relies on, and a
    small concrete instance at the end of the file shows that the contracts
    can be met. *)

From Stdlib Require Import ZArith QArith Qcanon Lia List Bool Ascii String.
From Stdlib Require Import Strings.Byte Sorting.Sorted.
From stdpp Require Import base option list gmap strings pretty fin_maps.

Local Open Scope Z_scope.

(** ** Python exceptions and results *)

Inductive exc_kind :=
| JSONDecodeError
| ValueError
| TypeError
| KeyError
| UnicodeEncodeError
| OverflowError
| RecursionError.

Record exn := Exn { exn_kind : exc_kind; exn_msg : string }.

Inductive result (A : Type) :=
| OK (a : A)
| Raise (e : exn).
Arguments OK {A} a.
Arguments Raise {A} e.

Global Instance result_ret : MRet result := fun A a => OK a.

Global Instance result_bind : MBind result := fun A B k r =>
  match r with
  | OK a => k a
  | Raise e => Raise e
  end.

Global Instance result_fmap : FMap result := fun A B f r =>
  match r with
  | OK a => OK (f a)
  | Raise e => Raise e
  end.

Definition is_ok {A} (r : result A) : bool :=
  match r with OK _ => true | Raise _ => false end.

(** ** Bytes *)

Module Bytes.

Definition to_Z (b : byte) : Z := Z.of_N (Byte.to_N b).

Definition of_Z (z : Z) : byte :=
  match Byte.of_N (Z.to_N (z mod 256)) with
  | Some b => b
  | None => x00
  end.

(** [strxor] of the cipher library on single bytes. *)
Definition xor (a b : byte) : byte := of_Z (Z.lxor (to_Z a) (to_Z b)).

Definition xor_bytes (a b : list byte) : list byte := zip_with xor a b.

Lemma to_Z_range b : 0 <= to_Z b < 256.
Proof.
  unfold to_Z. pose proof (Byte.to_N_bounded b). lia.
Qed.

Lemma of_to_Z b : of_Z (to_Z b) = b.
Proof.
  unfold of_Z. pose proof (to_Z_range b) as Hr.
  rewrite Z.mod_small by lia. unfold to_Z.
  rewrite N2Z.id, Byte.of_to_N. reflexivity.
Qed.

Lemma to_of_Z z : to_Z (of_Z z) = z mod 256.
Proof.
  unfold of_Z, to_Z.
  assert (Hm : 0 <= z mod 256 < 256) by (apply Z.mod_pos_bound; lia).
  destruct (Byte.of_N (Z.to_N (z mod 256))) as [b|] eqn:E.
  - apply Byte.to_of_N in E. rewrite E. lia.
  - apply Byte.of_N_None_iff in E. lia.
Qed.

Lemma to_of_Z_small z : 0 <= z < 256 -> to_Z (of_Z z) = z.
Proof. intros H. rewrite to_of_Z. apply Z.mod_small. lia. Qed.

Lemma to_Z_inj a b : to_Z a = to_Z b -> a = b.
Proof. intros H. rewrite <- (of_to_Z a), <- (of_to_Z b), H. reflexivity. Qed.

Lemma lxor_range a b : 0 <= a < 256 -> 0 <= b < 256 -> 0 <= Z.lxor a b < 256.
Proof.
  intros Ha Hb.
  assert (H0 : 0 <= Z.lxor a b) by (apply Z.lxor_nonneg; lia).
  split; [exact H0|].
  destruct (Z.eq_dec (Z.lxor a b) 0) as [->|Hne]; [lia|].
  change 256 with (2 ^ 8).
  apply Z.log2_lt_pow2; [lia|].
  pose proof (Z.log2_lxor a b ltac:(lia) ltac:(lia)) as Hl.
  assert (La : Z.log2 a < 8).
  { destruct (Z.eq_dec a 0) as [->|]; [cbn; lia|].
    apply Z.log2_lt_pow2; [lia|]. change (2 ^ 8) with 256. lia. }
  assert (Lb : Z.log2 b < 8).
  { destruct (Z.eq_dec b 0) as [->|]; [cbn; lia|].
    apply Z.log2_lt_pow2; [lia|]. change (2 ^ 8) with 256. lia. }
  lia.
Qed.

Lemma to_Z_xor a b : to_Z (xor a b) = Z.lxor (to_Z a) (to_Z b).
Proof.
  unfold xor. apply to_of_Z_small.
  apply lxor_range; apply to_Z_range.
Qed.

Lemma xor_cancel a b : xor (xor a b) b = a.
Proof.
  apply to_Z_inj. rewrite !to_Z_xor.
  rewrite Z.lxor_assoc, Z.lxor_nilpotent, Z.lxor_0_r. reflexivity.
Qed.

Lemma length_xor_bytes a b :
  length (xor_bytes a b) = Nat.min (length a) (length b).
Proof.
  unfold xor_bytes. revert b.
  induction a as [|x a IH]; intros [|y b]; simpl; auto.
Qed.

Lemma xor_bytes_cancel a b :
  length a = length b -> xor_bytes (xor_bytes a b) b = a.
Proof.
  unfold xor_bytes. revert b.
  induction a as [|x a IH]; intros [|y b] Hl; simpl in *; try discriminate; auto.
  rewrite xor_cancel, IH by lia. reflexivity.
Qed.

End Bytes.

(** ** Base64 ([base64.b64encode] and the decoder a reader of the files uses) *)

Module Base64.

Definition alphabet : string :=
  "ABCDEFGHIJKLMNOPQRSTUVWXYZabcdefghijklmnopqrstuvwxyz0123456789+/"%string.

Definition pad_char : ascii := "="%char.

Definition char_of (i : Z) : ascii :=
  match String.get (Z.to_nat i) alphabet with
  | Some c => c
  | None => pad_char
  end.

Definition index_of (c : ascii) : option Z :=
  let n := Z.of_N (N_of_ascii c) in
  if (65 <=? n) && (n <=? 90) then Some (n - 65)
  else if (97 <=? n) && (n <=? 122) then Some (n - 71)
  else if (48 <=? n) && (n <=? 57) then Some (n + 4)
  else if n =? 43 then Some 62
  else if n =? 47 then Some 63
  else None.

(** The four sextets of a group of three octets. *)
Definition sextet1 (x : Z) : Z := x / 4.
Definition sextet2 (x y : Z) : Z := (x mod 4) * 16 + y / 16.
Definition sextet3 (y z : Z) : Z := (y mod 16) * 4 + z / 64.
Definition sextet4 (z : Z) : Z := z mod 64.

Definition octet1 (i1 i2 : Z) : Z := i1 * 4 + i2 / 16.
Definition octet2 (i2 i3 : Z) : Z := (i2 mod 16) * 16 + i3 / 4.
Definition octet3 (i3 i4 : Z) : Z := (i3 mod 4) * 64 + i4.

Fixpoint b64encode (bs : list byte) : string :=
  match bs with
  | [] => EmptyString
  | [a] =>
      let x := Bytes.to_Z a in
      String (char_of (sextet1 x))
        (String (char_of (sextet2 x 0))
           (String pad_char (String pad_char EmptyString)))
  | [a; b] =>
      let x := Bytes.to_Z a in
      let y := Bytes.to_Z b in
      String (char_of (sextet1 x))
        (String (char_of (sextet2 x y))
           (String (char_of (sextet3 y 0)) (String pad_char EmptyString)))
  | a :: b :: c :: rest =>
      let x := Bytes.to_Z a in
      let y := Bytes.to_Z b in
      let z := Bytes.to_Z c in
      String (char_of (sextet1 x))
        (String (char_of (sextet2 x y))
           (String (char_of (sextet3 y z))
              (String (char_of (sextet4 z)) (b64encode rest))))
  end.

Definition is_empty (s : string) : bool :=
  match s with EmptyString => true | _ => false end.

Fixpoint b64decode (s : string) : option (list byte) :=
  match s with
  | EmptyString => Some []
  | String c1 (String c2 (String c3 (String c4 rest))) =>
      match index_of c1, index_of c2 with
      | Some i1, Some i2 =>
          let b1 := Bytes.of_Z (octet1 i1 i2) in
          if Ascii.eqb c3 pad_char then
            if Ascii.eqb c4 pad_char && is_empty rest then Some [b1] else None
          else
            match index_of c3 with
            | Some i3 =>
                let b2 := Bytes.of_Z (octet2 i2 i3) in
                if Ascii.eqb c4 pad_char then
                  if is_empty rest then Some [b1; b2] else None
                else
                  match index_of c4, b64decode rest with
                  | Some i4, Some tl =>
                      Some (b1 :: b2 :: Bytes.of_Z (octet3 i3 i4) :: tl)
                  | _, _ => None
                  end
            | None => None
            end
      | _, _ => None
      end
  | _ => None
  end.

Lemma index_of_char_of i : 0 <= i < 64 -> index_of (char_of i) = Some i.
Proof.
  intros Hi.
  assert (Hn : forall n : nat, (n < 64)%nat ->
                 index_of (char_of (Z.of_nat n)) = Some (Z.of_nat n)).
  { intros n Hlt.
    do 64 (destruct n as [|n]; [reflexivity|]). lia. }
  rewrite <- (Z2Nat.id i) by lia. apply Hn. lia.
Qed.

Lemma char_of_not_pad i : 0 <= i < 64 -> Ascii.eqb (char_of i) pad_char = false.
Proof.
  intros Hi. destruct (Ascii.eqb_spec (char_of i) pad_char) as [E|]; [|reflexivity].
  pose proof (index_of_char_of i Hi) as H. rewrite E in H. discriminate.
Qed.

Lemma sextet1_range x : 0 <= x < 256 -> 0 <= sextet1 x < 64.
Proof. unfold sextet1. intros. Z.to_euclidean_division_equations. lia. Qed.

Lemma sextet2_range x y : 0 <= x -> 0 <= y < 256 -> 0 <= sextet2 x y < 64.
Proof. unfold sextet2. intros. Z.to_euclidean_division_equations. lia. Qed.

Lemma sextet3_range y z : 0 <= y -> 0 <= z < 256 -> 0 <= sextet3 y z < 64.
Proof. unfold sextet3. intros. Z.to_euclidean_division_equations. lia. Qed.

Lemma sextet4_range z : 0 <= z -> 0 <= sextet4 z < 64.
Proof. unfold sextet4. intros. Z.to_euclidean_division_equations. lia. Qed.

Lemma octet1_sextets x y :
  0 <= x < 256 -> 0 <= y < 256 -> octet1 (sextet1 x) (sextet2 x y) = x.
Proof.
  unfold octet1, sextet1, sextet2. intros.
  Z.to_euclidean_division_equations. lia.
Qed.

Lemma octet2_sextets x y z :
  0 <= x < 256 -> 0 <= y < 256 -> 0 <= z < 256 ->
  octet2 (sextet2 x y) (sextet3 y z) = y.
Proof.
  unfold octet2, sextet2, sextet3. intros.
  Z.to_euclidean_division_equations. lia.
Qed.

Lemma octet3_sextets y z :
  0 <= y < 256 -> 0 <= z < 256 -> octet3 (sextet3 y z) (sextet4 z) = z.
Proof.
  unfold octet3, sextet3, sextet4. intros.
  Z.to_euclidean_division_equations. lia.
Qed.

Lemma b64decode_b64encode bs : b64decode (b64encode bs) = Some bs.
Proof.
  assert (H : forall n bs, (length bs < n)%nat -> b64decode (b64encode bs) = Some bs).
  { clear bs. induction n as [|n IH]; intros bs Hlen; [lia|].
    destruct bs as [|a [|b [|c rest]]].
    - reflexivity.
    - pose proof (Bytes.to_Z_range a) as Ha.
      cbn [b64encode b64decode].
      rewrite !index_of_char_of
        by (first [apply sextet1_range | apply sextet2_range]; lia).
      cbn. rewrite octet1_sextets by lia. rewrite Bytes.of_to_Z. reflexivity.
    - pose proof (Bytes.to_Z_range a) as Ha.
      pose proof (Bytes.to_Z_range b) as Hb.
      cbn [b64encode b64decode].
      rewrite !index_of_char_of
        by (first [apply sextet1_range | apply sextet2_range
                  | apply sextet3_range]; lia).
      rewrite char_of_not_pad by (apply sextet3_range; lia).
      cbn. rewrite octet1_sextets, octet2_sextets by lia.
      rewrite !Bytes.of_to_Z. reflexivity.
    - pose proof (Bytes.to_Z_range a) as Ha.
      pose proof (Bytes.to_Z_range b) as Hb.
      pose proof (Bytes.to_Z_range c) as Hc.
      cbn [b64encode b64decode].
      rewrite !index_of_char_of
        by (first [apply sextet1_range | apply sextet2_range
                  | apply sextet3_range | apply sextet4_range]; lia).
      rewrite !char_of_not_pad
        by (first [apply sextet3_range | apply sextet4_range]; lia).
      rewrite IH by (simpl in Hlen; lia).
      rewrite octet1_sextets, octet2_sextets, octet3_sextets by lia.
      rewrite !Bytes.of_to_Z. reflexivity. }
  apply (H (S (length bs))). lia.
Qed.

Lemma b64encode_inj a b : b64encode a = b64encode b -> a = b.
Proof.
  intros H. apply (f_equal b64decode) in H.
  rewrite !b64decode_b64encode in H. congruence.
Qed.

End Base64.

(** ** Python text: [str] as a sequence of code points, and its codecs *)

Module Unicode.

(** A Python [str] is a sequence of code points in [0, 0x10FFFF]. *)
Definition str := list Z.

(** The code points [str.encode('utf-8')] accepts: everything but the
    surrogates. *)
Definition scalar_value (c : Z) : Prop :=
  0 <= c < 0xD800 \/ 0xE000 <= c < 0x110000.

Definition utf8_encode_cp (c : Z) : option (list byte) :=
  if c <? 0 then None
  else if c <? 0x80 then Some [Bytes.of_Z c]
  else if c <? 0x800 then
    Some [Bytes.of_Z (0xC0 + c / 64); Bytes.of_Z (0x80 + c mod 64)]
  else if c <? 0x10000 then
    if (0xD800 <=? c) && (c <? 0xE000) then None
    else Some [Bytes.of_Z (0xE0 + c / 4096);
               Bytes.of_Z (0x80 + (c / 64) mod 64);
               Bytes.of_Z (0x80 + c mod 64)]
  else if c <? 0x110000 then
    Some [Bytes.of_Z (0xF0 + c / 262144);
          Bytes.of_Z (0x80 + (c / 4096) mod 64);
          Bytes.of_Z (0x80 + (c / 64) mod 64);
          Bytes.of_Z (0x80 + c mod 64)]
  else None.

(** [s.encode('utf-8')]; [None] is [UnicodeEncodeError]. *)
Fixpoint utf8_encode (s : str) : option (list byte) :=
  match s with
  | [] => Some []
  | c :: s' =>
      match utf8_encode_cp c, utf8_encode s' with
      | Some bs, Some rest => Some (bs ++ rest)
      | _, _ => None
      end
  end.

Definition is_cont (b : byte) : bool :=
  (0x80 <=? Bytes.to_Z b) && (Bytes.to_Z b <? 0xC0).

Definition cont (b : byte) : Z := Bytes.to_Z b - 0x80.

Definition push (c : Z) (r : option str) : option str :=
  match r with
  | Some s => Some (c :: s)
  | None => None
  end.

(** The strict UTF-8 decoder: no overlong forms, no surrogates, nothing
    above 0x10FFFF. *)
Fixpoint utf8_decode (bs : list byte) : option str :=
  match bs with
  | [] => Some []
  | b1 :: r1 =>
      let x := Bytes.to_Z b1 in
      if x <? 0x80 then push x (utf8_decode r1)
      else if x <? 0xC0 then None
      else if x <? 0xE0 then
        match r1 with
        | b2 :: r2 =>
            let c := (x - 0xC0) * 64 + cont b2 in
            if is_cont b2 && (0x80 <=? c) then push c (utf8_decode r2)
            else None
        | _ => None
        end
      else if x <? 0xF0 then
        match r1 with
        | b2 :: b3 :: r3 =>
            let c := (x - 0xE0) * 4096 + cont b2 * 64 + cont b3 in
            if is_cont b2 && is_cont b3 && (0x800 <=? c)
               && negb ((0xD800 <=? c) && (c <? 0xE000))
            then push c (utf8_decode r3)
            else None
        | _ => None
        end
      else if x <? 0xF8 then
        match r1 with
        | b2 :: b3 :: b4 :: r4 =>
            let c := (x - 0xF0) * 262144 + cont b2 * 4096
                     + cont b3 * 64 + cont b4 in
            if is_cont b2 && is_cont b3 && is_cont b4
               && (0x10000 <=? c) && (c <? 0x110000)
            then push c (utf8_decode r4)
            else None
        | _ => None
        end
      else None
  end.

(** [s.encode('latin-1')]: one byte per code point, none above 255. *)
Definition latin1_cp (c : Z) : option byte :=
  if (0 <=? c) && (c <? 256) then Some (Bytes.of_Z c) else None.

Fixpoint latin1_encode (s : str) : option (list byte) :=
  match s with
  | [] => Some []
  | c :: s' =>
      match latin1_cp c, latin1_encode s' with
      | Some b, Some rest => Some (b :: rest)
      | _, _ => None
      end
  end.

Definition latin1 (s : str) : Prop := Forall (fun c => 0 <= c < 256) s.

(** The code points of an ASCII literal. *)
Definition of_string (s : string) : str :=
  map (fun a => Z.of_N (N_of_ascii a)) (list_ascii_of_string s).

Lemma utf8_encode_cp_total c : scalar_value c -> is_Some (utf8_encode_cp c).
Proof.
  unfold scalar_value, utf8_encode_cp. intros H.
  repeat match goal with
         | |- context [?a <? ?b] => destruct (Z.ltb_spec a b)
         | |- context [?a <=? ?b] => destruct (Z.leb_spec a b)
         end; cbn; eauto; lia.
Qed.

Lemma utf8_encode_total s : Forall scalar_value s -> is_Some (utf8_encode s).
Proof.
  induction 1 as [|c s Hc _ IH]; cbn; [eauto|].
  destruct (utf8_encode_cp_total c Hc) as [bs ->].
  destruct IH as [rest ->]. eauto.
Qed.


Local Ltac byte_val :=
  repeat match goal with
         | |- context [Bytes.to_Z (Bytes.of_Z ?e)] =>
             rewrite (Bytes.to_of_Z_small e)
               by (Z.to_euclidean_division_equations; lia)
         end.

Local Ltac decide_tests :=
  repeat match goal with
         | |- context [?a <? ?b] =>
             destruct (Z.ltb_spec a b);
             try (exfalso; Z.to_euclidean_division_equations; lia)
         | |- context [?a <=? ?b] =>
             destruct (Z.leb_spec a b);
             try (exfalso; Z.to_euclidean_division_equations; lia)
         end.

Lemma utf8_decode_cp c bs rest :
  utf8_encode_cp c = Some bs ->
  utf8_decode (bs ++ rest) = push c (utf8_decode rest).
Proof.
  unfold utf8_encode_cp. intros H.
  repeat match type of H with
         | context [?a <? ?b] => destruct (Z.ltb_spec a b)
         | context [?a <=? ?b] => destruct (Z.leb_spec a b)
         end; cbn in H; try discriminate;
    injection H as <-; cbn [app utf8_decode]; unfold is_cont, cont;
    byte_val; decide_tests; cbn [andb negb];
    f_equal; Z.to_euclidean_division_equations; lia.
Qed.

Lemma utf8_decode_encode s bs :
  utf8_encode s = Some bs -> utf8_decode bs = Some s.
Proof.
  revert bs. induction s as [|c s IH]; intros bs H; cbn in H.
  - injection H as <-. reflexivity.
  - destruct (utf8_encode_cp c) as [b|] eqn:Ec; [|discriminate].
    destruct (utf8_encode s) as [r|] eqn:Es; [|discriminate].
    injection H as <-.
    rewrite (utf8_decode_cp c b r Ec), (IH r eq_refl). reflexivity.
Qed.

Lemma latin1_encode_total s : latin1 s -> is_Some (latin1_encode s).
Proof.
  induction 1 as [|c s Hc _ IH]; cbn; [eauto|].
  unfold latin1_cp.
  destruct (Z.leb_spec 0 c); [|lia]. destruct (Z.ltb_spec c 256); [|lia].
  cbn. destruct IH as [rest ->]. eauto.
Qed.

Lemma latin1_encode_latin1 s bs : latin1_encode s = Some bs -> latin1 s.
Proof.
  revert bs. induction s as [|c s IH]; intros bs H; [constructor|].
  cbn in H. unfold latin1_cp in H.
  destruct (latin1_encode s) as [r|] eqn:E;
    destruct (Z.leb_spec 0 c); destruct (Z.ltb_spec c 256); cbn in H;
    try discriminate.
  constructor; [lia|exact (IH r eq_refl)].
Qed.

End Unicode.

(** ** Encryption Functions *)

Module Crypto.

(** [AES.block_size] *)
Definition block_size : Z := 16.

Definition len {A} (l : list A) : Z := Z.of_nat (length l).

(** [Crypto.Util.Padding.pad], PKCS7 style. *)
Definition pad (data_to_pad : list byte) (block_size : Z) : list byte :=
  let padding_len := block_size - len data_to_pad mod block_size in
  data_to_pad ++ repeat (Bytes.of_Z padding_len) (Z.to_nat padding_len).

(** PKCS7 padding removal, as a reader of the encrypted file applies it. *)
Definition unpad (padded_data : list byte) (block_size : Z) : option (list byte) :=
  let pdata_len := len padded_data in
  if pdata_len =? 0 then None
  else if negb (pdata_len mod block_size =? 0) then None
  else
    match last padded_data with
    | None => None
    | Some b =>
        let padding_len := Bytes.to_Z b in
        if (padding_len <? 1) || (Z.min block_size pdata_len <? padding_len)
        then None
        else
          let n := Z.to_nat (pdata_len - padding_len) in
          if forallb (Byte.eqb b) (skipn n padded_data)
          then Some (firstn n padded_data)
          else None
    end.

Lemma pad_length data :
  len (pad data 16) = 16 * (len data / 16 + 1).
Proof.
  unfold pad, len. rewrite length_app, repeat_length.
  Z.to_euclidean_division_equations. lia.
Qed.

Lemma pad_grows data : 1 <= len (pad data 16) - len data <= 16.
Proof.
  unfold pad, len. rewrite length_app, repeat_length.
  Z.to_euclidean_division_equations. lia.
Qed.

Lemma forallb_eqb_repeat b n : forallb (Byte.eqb b) (repeat b n) = true.
Proof.
  induction n as [|n IH]; cbn; [reflexivity|].
  rewrite IH, andb_true_r. apply Byte.byte_dec_lb. reflexivity.
Qed.

Lemma last_app_repeat {A} (l : list A) x n :
  (0 < n)%nat -> last (l ++ repeat x n) = Some x.
Proof.
  intros Hn. destruct n as [|n]; [lia|].
  replace (repeat x (S n)) with (repeat x n ++ [x]).
  - rewrite app_assoc. apply last_snoc.
  - clear. induction n as [|n IH]; cbn; [reflexivity|].
    cbn in IH. rewrite IH. reflexivity.
Qed.

Lemma unpad_pad data : unpad (pad data 16) 16 = Some data.
Proof.
  pose proof (pad_length data) as Hlen.
  pose proof (pad_grows data) as Hgrow.
  unfold unpad. rewrite Hlen.
  assert (Hq : 0 <= len data / 16).
  { apply Z.div_pos; unfold len; lia. }
  destruct (Z.eqb_spec (16 * (len data / 16 + 1)) 0) as [E|_]; [lia|].
  replace (16 * (len data / 16 + 1) mod 16) with 0
    by (Z.to_euclidean_division_equations; lia).
  cbn [Z.eqb negb].
  set (p := 16 - len data mod 16).
  assert (Hp : 1 <= p <= 16).
  { subst p. Z.to_euclidean_division_equations. lia. }
  assert (Hpad : pad data 16 = data ++ repeat (Bytes.of_Z p) (Z.to_nat p))
    by reflexivity.
  rewrite Hpad.
  rewrite last_app_repeat by lia.
  rewrite Bytes.to_of_Z_small by lia.
  destruct (Z.ltb_spec p 1); [lia|].
  destruct (Z.ltb_spec (Z.min 16 (16 * (len data / 16 + 1))) p); [lia|].
  cbn [orb].
  assert (Hn : Z.to_nat (16 * (len data / 16 + 1) - p) = length data).
  { subst p. unfold len in *. Z.to_euclidean_division_equations. lia. }
  rewrite Hn.
  rewrite drop_app_length, take_app_length, forallb_eqb_repeat.
  reflexivity.
Qed.

Section Cipher.

(** The AES block permutation and its inverse, on a key and one block. *)
Variable aes_encrypt_block : list byte -> list byte -> list byte.
Variable aes_decrypt_block : list byte -> list byte -> list byte.

(** PBKDF2 of RFC 8018 on byte strings: password, salt, derived-key
    length, iteration count. *)
Variable pbkdf2 : list byte -> list byte -> Z -> Z -> list byte.

(** The random source: [get_random_bytes n] draws [n] bytes and moves
    the generator on. *)
Variable rng : Type.
Variable get_random_bytes : nat -> rng -> list byte * rng.

(** [Crypto.Protocol.KDF.PBKDF2]: a [str] password is first encoded as
    Latin-1, which fails on a code point above 255. *)
Definition PBKDF2 (password : Unicode.str) (salt : list byte)
    (dkLen count : Z) : result (list byte) :=
  match Unicode.latin1_encode password with
  | None =>
      Raise (Exn UnicodeEncodeError "'latin-1' codec can't encode character")
  | Some pw => OK (pbkdf2 pw salt dkLen count)
  end.

(** The cipher object [AES.new(key, AES.MODE_CBC, iv)] returns. *)
Record cbc_cipher := { cipher_key : list byte; cipher_iv : list byte }.

(** AES takes keys of 128, 192 or 256 bits. *)
Definition aes_key_ok (key : list byte) : bool :=
  (len key =? 16) || (len key =? 24) || (len key =? 32).

Definition AES_new (key iv : list byte) : result cbc_cipher :=
  if negb (aes_key_ok key) then
    Raise (Exn ValueError "Incorrect AES key length")
  else if negb (len iv =? block_size) then
    Raise (Exn ValueError "Incorrect IV length")
  else OK {| cipher_key := key; cipher_iv := iv |}.

(** Cipher block chaining over [n] blocks of 16 bytes. *)
Fixpoint cbc_encrypt_blocks (n : nat) (key prev data : list byte) : list byte :=
  match n with
  | O => []
  | S n' =>
      let c := aes_encrypt_block key (Bytes.xor_bytes (firstn 16 data) prev) in
      c ++ cbc_encrypt_blocks n' key c (skipn 16 data)
  end.

Fixpoint cbc_decrypt_blocks (n : nat) (key prev data : list byte) : list byte :=
  match n with
  | O => []
  | S n' =>
      let c := firstn 16 data in
      Bytes.xor_bytes (aes_decrypt_block key c) prev
        ++ cbc_decrypt_blocks n' key c (skipn 16 data)
  end.

(** [cipher.encrypt(plaintext)] *)
Definition cipher_encrypt (cipher : cbc_cipher) (plaintext : list byte)
    : result (list byte) :=
  if len plaintext mod block_size =? 0 then
    OK (cbc_encrypt_blocks (Z.to_nat (len plaintext / block_size))
          (cipher_key cipher) (cipher_iv cipher) plaintext)
  else Raise (Exn ValueError "Data must be padded to 16 byte boundary in CBC mode").

(** CBC decryption, for the reader's side. *)
Definition cipher_decrypt (cipher : cbc_cipher) (ciphertext : list byte)
    : result (list byte) :=
  if len ciphertext mod block_size =? 0 then
    OK (cbc_decrypt_blocks (Z.to_nat (len ciphertext / block_size))
          (cipher_key cipher) (cipher_iv cipher) ciphertext)
  else Raise (Exn ValueError "Data must be padded to 16 byte boundary in CBC mode").

Definition encode_utf8 (s : Unicode.str) : result (list byte) :=
  match Unicode.utf8_encode s with
  | Some bs => OK bs
  | None => Raise (Exn UnicodeEncodeError "'utf-8' codec can't encode character")
  end.

Definition encrypt_data (data_str password : Unicode.str) (g : rng)
    : result (string * string * string) * rng :=
  (* Generate random salt and IV *)
  let '(salt, g) := get_random_bytes 16 g in
  let '(iv, g) := get_random_bytes 16 g in
  (* Derive key from password using PBKDF2 *)
  (key ← PBKDF2 password salt 32 100000;
   (* Create cipher and encrypt *)
   cipher ← AES_new key iv;
   data ← encode_utf8 data_str;
   let padded_data := pad data block_size in
   encrypted ← cipher_encrypt cipher padded_data;
   (* Encode to base64 for storage *)
   let encrypted_b64 := Base64.b64encode encrypted in
   let salt_b64 := Base64.b64encode salt in
   let iv_b64 := Base64.b64encode iv in
   OK (encrypted_b64, salt_b64, iv_b64), g).

Definition to_option {A} (r : result A) : option A :=
  match r with OK a => Some a | Raise _ => None end.

(** The decryption the encrypted file is written for: decode the three
    base64 texts, derive the 256-bit key from the password and the salt
    with 100,000 iterations, decrypt under CBC with the IV, remove the
    PKCS7 padding, decode UTF-8. *)
Definition decrypt_data (encrypted_b64 salt_b64 iv_b64 : string)
    (password : Unicode.str) : option Unicode.str :=
  encrypted ← Base64.b64decode encrypted_b64;
  salt ← Base64.b64decode salt_b64;
  iv ← Base64.b64decode iv_b64;
  key ← to_option (PBKDF2 password salt 32 100000);
  cipher ← to_option (AES_new key iv);
  padded ← to_option (cipher_decrypt cipher encrypted);
  data ← unpad padded block_size;
  Unicode.utf8_decode data.

(** *** What the proofs assume of the libraries *)

Hypothesis aes_block_length : forall key block,
  aes_key_ok key = true -> length block = 16%nat ->
  length (aes_encrypt_block key block) = 16%nat.

Hypothesis aes_decrypt_encrypt : forall key block,
  aes_key_ok key = true -> length block = 16%nat ->
  aes_decrypt_block key (aes_encrypt_block key block) = block.

Hypothesis pbkdf2_length : forall pw salt dkLen count,
  0 <= dkLen -> len (pbkdf2 pw salt dkLen count) = dkLen.

Hypothesis get_random_bytes_length : forall n g,
  length (fst (get_random_bytes n g)) = n.

Lemma cbc_encrypt_blocks_length n key prev data :
  aes_key_ok key = true -> length prev = 16%nat ->
  (16 * n <= length data)%nat ->
  length (cbc_encrypt_blocks n key prev data) = (16 * n)%nat.
Proof.
  intros Hk. revert prev data.
  induction n as [|n IH]; intros prev data Hp Hd; [reflexivity|].
  cbn [cbc_encrypt_blocks].
  assert (Hx : length (Bytes.xor_bytes (firstn 16 data) prev) = 16%nat).
  { rewrite Bytes.length_xor_bytes, length_take. lia. }
  rewrite length_app, aes_block_length by assumption.
  rewrite IH.
  - lia.
  - apply aes_block_length; assumption.
  - rewrite length_drop. lia.
Qed.

Lemma cbc_decrypt_encrypt_blocks n key prev data :
  aes_key_ok key = true -> length prev = 16%nat ->
  (16 * n <= length data)%nat ->
  cbc_decrypt_blocks n key prev (cbc_encrypt_blocks n key prev data)
  = firstn (16 * n) data.
Proof.
  intros Hk. revert prev data.
  induction n as [|n IH]; intros prev data Hp Hd; [reflexivity|].
  cbn [cbc_encrypt_blocks cbc_decrypt_blocks].
  set (x := Bytes.xor_bytes (firstn 16 data) prev).
  assert (Hx : length x = 16%nat).
  { subst x. rewrite Bytes.length_xor_bytes, length_take. lia. }
  assert (Hc : length (aes_encrypt_block key x) = 16%nat)
    by (apply aes_block_length; assumption).
  rewrite (take_app_length' _ _ 16), (drop_app_length' _ _ 16) by (symmetry; exact Hc).
  rewrite aes_decrypt_encrypt by assumption.
  subst x. rewrite Bytes.xor_bytes_cancel by (rewrite length_take; lia).
  rewrite IH; [|assumption|rewrite length_drop; lia].
  replace (16 * S n)%nat with (16 + 16 * n)%nat by lia.
  apply take_take_drop.
Qed.

Lemma cipher_encrypt_length key iv data encrypted :
  aes_key_ok key = true -> len iv = 16 ->
  cipher_encrypt {| cipher_key := key; cipher_iv := iv |} data = OK encrypted ->
  len encrypted = len data.
Proof.
  unfold cipher_encrypt, block_size, len. cbn [cipher_key cipher_iv].
  intros Hk Hiv H.
  destruct (Z.eqb_spec (Z.of_nat (length data) mod 16) 0) as [Hm|]; [|discriminate].
  injection H as <-.
  rewrite cbc_encrypt_blocks_length; [|assumption|lia|].
  - Z.to_euclidean_division_equations. lia.
  - Z.to_euclidean_division_equations. lia.
Qed.

Lemma cipher_decrypt_encrypt key iv data encrypted :
  aes_key_ok key = true -> len iv = 16 ->
  cipher_encrypt {| cipher_key := key; cipher_iv := iv |} data = OK encrypted ->
  cipher_decrypt {| cipher_key := key; cipher_iv := iv |} encrypted = OK data
  /\ len encrypted = len data.
Proof.
  unfold cipher_encrypt, cipher_decrypt, block_size, len. cbn [cipher_key cipher_iv].
  intros Hk Hiv H.
  destruct (Z.eqb_spec (Z.of_nat (length data) mod 16) 0) as [Hm|]; [|discriminate].
  injection H as <-.
  set (n := Z.to_nat (Z.of_nat (length data) / 16)).
  assert (Hn : (16 * n)%nat = length data).
  { subst n. Z.to_euclidean_division_equations. lia. }
  assert (Hl : length (cbc_encrypt_blocks n key iv data) = length data).
  { rewrite cbc_encrypt_blocks_length; [assumption|assumption|lia|lia]. }
  rewrite Hl, Hm. cbn [Z.eqb]. fold n. split; [|reflexivity].
  rewrite cbc_decrypt_encrypt_blocks; [|assumption|lia|lia].
  rewrite Hn. rewrite firstn_all. reflexivity.
Qed.

(** The steps [encrypt_data] went through when it returned. *)
Lemma encrypt_data_inv data_str password g C S V g' :
  encrypt_data data_str password g = (OK (C, S, V), g') ->
  exists salt iv pw data encrypted,
    fst (get_random_bytes 16 g) = salt
    /\ fst (get_random_bytes 16 (snd (get_random_bytes 16 g))) = iv
    /\ Unicode.latin1_encode password = Some pw
    /\ aes_key_ok (pbkdf2 pw salt 32 100000) = true
    /\ len iv = 16
    /\ Unicode.utf8_encode data_str = Some data
    /\ cipher_encrypt {| cipher_key := pbkdf2 pw salt 32 100000;
                         cipher_iv := iv |} (pad data 16) = OK encrypted
    /\ C = Base64.b64encode encrypted
    /\ S = Base64.b64encode salt
    /\ V = Base64.b64encode iv.
Proof.
  unfold encrypt_data, PBKDF2, AES_new, encode_utf8, block_size.
  destruct (get_random_bytes 16 g) as [salt g1].
  cbn [fst snd].
  destruct (get_random_bytes 16 g1) as [iv g2].
  cbn [fst snd].
  destruct (Unicode.latin1_encode password) as [pw|]; cbn; [|discriminate].
  destruct (aes_key_ok (pbkdf2 pw salt 32 100000)) eqn:Hk; cbn; [|discriminate].
  destruct (Z.eqb_spec (len iv) 16) as [Hiv|]; cbn; [|discriminate].
  destruct (Unicode.utf8_encode data_str) as [data|]; cbn; [|discriminate].
  destruct (cipher_encrypt _ (pad data 16)) as [encrypted|] eqn:He; cbn;
    [|discriminate].
  intros H. injection H as <- <- <- <-.
  exists salt, iv, pw, data, encrypted. repeat split; try assumption; reflexivity.
Qed.

Lemma pad_block_aligned data : len (pad data 16) mod 16 = 0.
Proof.
  rewrite pad_length. Z.to_euclidean_division_equations. lia.
Qed.

Lemma derived_key_ok pw salt : aes_key_ok (pbkdf2 pw salt 32 100000) = true.
Proof.
  unfold aes_key_ok. rewrite pbkdf2_length by lia. reflexivity.
Qed.

(** C1, as amended: for every plaintext that UTF-8 can encode and every
    password whose code points are all at most 255, [encrypt_data]
    returns three base64 texts from which the documented decryption
    (PBKDF2 with 100,000 iterations and a 256-bit key, AES-CBC, PKCS7
    padding removal, UTF-8 decoding) gives the plaintext back. *)
Theorem encrypt_data_roundtrip (P W : Unicode.str) (g : rng) :
  Forall Unicode.scalar_value P ->
  Unicode.latin1 W ->
  exists C S V g',
    encrypt_data P W g = (OK (C, S, V), g')
    /\ decrypt_data C S V W = Some P.
Proof.
  intros HP HW.
  destruct (Unicode.utf8_encode_total P HP) as [data Hdata].
  destruct (Unicode.latin1_encode_total W HW) as [pw Hpw].
  pose proof (get_random_bytes_length 16 g) as Hsalt.
  unfold encrypt_data, decrypt_data.
  destruct (get_random_bytes 16 g) as [salt g1]. cbn [fst] in Hsalt.
  pose proof (get_random_bytes_length 16 g1) as Hiv.
  destruct (get_random_bytes 16 g1) as [iv g2]. cbn [fst] in Hiv.
  assert (Hiv' : len iv = 16) by (unfold len; lia).
  pose proof (derived_key_ok pw salt) as Hk.
  pose proof (pad_block_aligned data) as Hal.
  destruct (cipher_encrypt
              {| cipher_key := pbkdf2 pw salt 32 100000; cipher_iv := iv |}
              (pad data 16)) as [encrypted|e] eqn:He.
  2:{ unfold cipher_encrypt, block_size in He. rewrite Hal in He. discriminate. }
  destruct (cipher_decrypt_encrypt _ _ _ _ Hk Hiv' He) as [Hdec _].
  exists (Base64.b64encode encrypted), (Base64.b64encode salt),
         (Base64.b64encode iv), g2.
  unfold PBKDF2, AES_new, encode_utf8, block_size.
  rewrite Hpw, Hdata. cbn. rewrite Hk. cbn.
  rewrite Hiv'. cbn. unfold block_size. rewrite He. cbn.
  split; [reflexivity|].
  rewrite !Base64.b64decode_b64encode. cbn.
  rewrite Hk, Hiv'. cbn.
  rewrite Hdec. cbn.
  rewrite unpad_pad. cbn.
  apply Unicode.utf8_decode_encode. exact Hdata.
Qed.

(** A password with a code point above 255 never gets as far as the
    cipher: the key derivation raises. *)
Lemma encrypt_data_password_not_latin1 (P W : Unicode.str) (g : rng) :
  Unicode.latin1_encode W = None ->
  fst (encrypt_data P W g)
  = Raise (Exn UnicodeEncodeError "'latin-1' codec can't encode character").
Proof.
  intros HW. unfold encrypt_data, PBKDF2.
  destruct (get_random_bytes 16 g) as [salt g1].
  destruct (get_random_bytes 16 g1) as [iv g2].
  rewrite HW. reflexivity.
Qed.

(** C8: with the plaintext and the password the same in two runs, the
    ciphertext depends on the random draws only through the salt and the
    IV: when the two runs report the same salt and the same IV, they
    report the same ciphertext. *)
Theorem encrypt_data_deterministic (P W : Unicode.str) (g1 g2 g1' g2' : rng)
    (C1 S1 V1 C2 S2 V2 : string) :
  encrypt_data P W g1 = (OK (C1, S1, V1), g1') ->
  encrypt_data P W g2 = (OK (C2, S2, V2), g2') ->
  S1 = S2 -> V1 = V2 -> C1 = C2.
Proof.
  intros H1 H2 HS HV.
  destruct (encrypt_data_inv _ _ _ _ _ _ _ H1)
    as (salt1 & iv1 & pw1 & data1 & enc1 & _ & _ & Hpw1 & _ & _ & Hd1 & He1
        & -> & -> & ->).
  destruct (encrypt_data_inv _ _ _ _ _ _ _ H2)
    as (salt2 & iv2 & pw2 & data2 & enc2 & _ & _ & Hpw2 & _ & _ & Hd2 & He2
        & -> & -> & ->).
  apply Base64.b64encode_inj in HS. apply Base64.b64encode_inj in HV.
  subst salt2 iv2.
  assert (pw1 = pw2) by congruence. assert (data1 = data2) by congruence.
  subst pw2 data2.
  assert (enc1 = enc2) by congruence. subst enc2. reflexivity.
Qed.

(** C10: whatever the plaintext and the password, the ciphertext that
    [encrypt_data] returns decodes from base64 to a byte string whose
    length is the smallest multiple of 16 strictly above the UTF-8 length
    of the plaintext: a multiple of 16, longer than the plaintext by at
    least 1 and at most 16 bytes, and so never empty. *)
Theorem ciphertext_length (P W : Unicode.str) (g g' : rng) (C S V : string) :
  encrypt_data P W g = (OK (C, S, V), g') ->
  exists data raw,
    Unicode.utf8_encode P = Some data
    /\ Base64.b64decode C = Some raw
    /\ len raw = 16 * (len data / 16 + 1)
    /\ len raw mod 16 = 0
    /\ 1 <= len raw - len data <= 16
    /\ raw <> [].
Proof.
  intros H.
  destruct (encrypt_data_inv _ _ _ _ _ _ _ H)
    as (salt & iv & pw & data & enc & _ & _ & _ & Hk & Hiv & Hd & He
        & -> & _ & _).
  pose proof (cipher_encrypt_length _ _ _ _ Hk Hiv He) as Hlen.
  exists data, enc.
  rewrite Base64.b64decode_b64encode, Hlen.
  pose proof (pad_length data) as Hp.
  pose proof (pad_grows data) as Hg.
  pose proof (pad_block_aligned data) as Ha.
  repeat split; try assumption; try lia.
  intros ->. unfold len in Hlen, Hg. cbn in Hlen. lia.
Qed.

End Cipher.

Arguments encrypt_data _ _ {rng} _ _ _ _.

End Crypto.

(** ** Python values held by table cells and JSON documents *)

#[local] Set Warnings "-register-all".

Inductive pyval :=
| PNone                                 (* None, and JSON's null *)
| PNaN                                  (* float('nan'): a missing cell of a table *)
| PBool (b : bool)
| PInt (z : Z)
| PFloat (q : Q)                        (* a finite float, by its value *)
| PStr (s : string)
| PList (l : list pyval)
| PDict (d : list (string * pyval)).

(** One row of a table, and one converted record: column name to value. *)
Abbreviation record := (gmap string pyval).

(** A DataFrame as [iterrows] walks it: index label and row, in order. *)
Abbreviation dataframe := (list (Z * gmap string pyval)).

Definition is_JSONDecodeError (e : exn) : bool :=
  match exn_kind e with JSONDecodeError => true | _ => false end.

(** [pd.isna] on a scalar: [pd.read_csv] marks a missing cell with NaN,
    the conversion writes [None]. *)
Definition is_missing (v : pyval) : bool :=
  match v with PNone | PNaN => true | _ => false end.

Definition is_list (v : pyval) : bool :=
  match v with PList _ => true | _ => false end.

Definition is_str (v : pyval) : bool :=
  match v with PStr _ => true | _ => false end.

(** ** Decimal texts

    [str()] of an integer, as stdpp's [pretty] writes it, has no colon in
    it: a text that starts with a decimal and a colon names its number. *)

Module Decimal.

Fixpoint has_colon (s : string) : bool :=
  match s with
  | EmptyString => false
  | String c s' => Ascii.eqb c ":" || has_colon s'
  end.

Lemma pretty_N_char_not_colon (d : N) : Ascii.eqb (pretty_N_char d) ":" = false.
Proof.
  unfold pretty_N_char.
  repeat (match goal with |- context [match ?x with _ => _ end] => destruct x end;
          try reflexivity).
Qed.

Lemma has_colon_pretty_N_go (x : N) : forall s,
  has_colon s = false -> has_colon (pretty_N_go x s) = false.
Proof.
  induction (N.lt_wf_0 x) as [x _ IH]. intros s Hs.
  destruct (N.eq_dec x 0%N) as [->|Hx].
  - rewrite pretty_N_go_0. exact Hs.
  - rewrite pretty_N_go_step by lia.
    apply IH; [apply N.div_lt; lia|].
    cbn [has_colon]. rewrite pretty_N_char_not_colon, Hs. reflexivity.
Qed.

Lemma has_colon_pretty_N (x : N) : has_colon (pretty x) = false.
Proof.
  unfold pretty, pretty_N. destruct (decide (x = 0%N)); [reflexivity|].
  apply has_colon_pretty_N_go. reflexivity.
Qed.

Lemma has_colon_pretty_Z (z : Z) : has_colon (pretty z) = false.
Proof.
  destruct z as [|p|p].
  - reflexivity.
  - apply (has_colon_pretty_N (N.pos p)).
  - change (pretty (Z.neg p)) with ("-" +:+ pretty (N.pos p)).
    cbn [String.app has_colon Ascii.eqb Bool.eqb orb].
    apply has_colon_pretty_N.
Qed.

(** Two texts that agree and start with colon-free heads before a colon
    have the same head. *)
Lemma colon_head_inj (u v s t : string) :
  has_colon u = false -> has_colon v = false ->
  u +:+ String ":" s = v +:+ String ":" t -> u = v.
Proof.
  revert v. induction u as [|a u IH]; intros [|b v]; cbn; intros Hu Hv H.
  - reflexivity.
  - injection H as Hb _. subst b. rewrite Ascii.eqb_refl in Hv. discriminate.
  - injection H as Ha _. subst a. rewrite Ascii.eqb_refl in Hu. discriminate.
  - injection H as -> H.
    apply orb_false_iff in Hu as [_ Hu]. apply orb_false_iff in Hv as [_ Hv].
    f_equal. apply IH; assumption.
Qed.

End Decimal.

(** ** Data Conversion Functions: the annotated table *)

Module Annotated.

Section Convert.

(** [json.loads] *)
Variable json_loads : string -> result pyval.

(** The truth value of an empty NumPy array: [False] with a deprecation
    warning up to NumPy 2.1, [ValueError] (here [None]) from 2.2 on. *)
Variable empty_array_truth : option bool.

(** The elements of the object array NumPy makes of a list that has a
    list among its elements, all its dimensions flattened: the shape
    NumPy finds for the list decides which they are. *)
Variable nested_elements : list pyval -> list pyval.

(** NumPy's two errors for the truth value of an array. *)
Definition ambiguous_truth_value : exn :=
  Exn ValueError
    ("The truth value of an array with more than one element is ambiguous."
     +:+ " Use a.any() or a.all()").

Definition empty_truth_value : exn :=
  Exn ValueError
    ("The truth value of an empty array is ambiguous."
     +:+ " Use `array.size > 0` to check that an array is not empty.").

(** The elements of [np.asarray(l, dtype=object)]. *)
Definition array_elements (l : list pyval) : list pyval :=
  if existsb is_list l then nested_elements l else l.

(** [bool(pd.isna(l))] on a list [l]: pandas makes the list an object
    array and tests it element by element; the truth value of the outcome
    is that of its single element, and a [ValueError] when there are
    more. *)
Definition array_truth (l : list pyval) : result bool :=
  match array_elements l with
  | [] =>
      match empty_array_truth with
      | Some b => OK b
      | None => Raise empty_truth_value
      end
  | [x] => OK (is_missing x)
  | _ => Raise ambiguous_truth_value
  end.

(** The outcome of [pd.isna(value)] where the code takes its truth value. *)
Definition isna_truth (value : pyval) : result bool :=
  match value with
  | PNone | PNaN => OK true
  | PList l => array_truth l
  | _ => OK false
  end.

(** [value == ''], the comparison with the empty string *)
Definition is_empty_str (value : pyval) : bool :=
  match value with
  | PStr s => String.eqb s EmptyString
  | _ => false
  end.

(** Parse vaccine_types field from JSON string to list. *)
Definition parse_vaccine_types (value : pyval) : result pyval :=
  missing ← isna_truth value;
  if missing || is_empty_str value then OK (PList [])
  else
    match value with
    | PStr s =>
        match json_loads s with
        | OK v => OK v
        | Raise e =>
            if is_JSONDecodeError e then OK (PList [value]) else Raise e
        end
    | _ => OK value
    end.

(** [row['vaccine_types']] *)
Definition getitem (row : record) (key : string) : result pyval :=
  match row !! key with
  | Some v => OK v
  | None => Raise (Exn KeyError ("'" +:+ key +:+ "'"))
  end.

(** [parse_vaccine_types(row['vaccine_types'])] *)
Definition parse_row (row : record) : result pyval :=
  getitem row "vaccine_types" ≫= parse_vaccine_types.

(** The body of the loop that converts numpy types to Python types:
    a missing value becomes [None]; the [ValueError] of [pd.isna] on a
    list is passed over; [value.item()] changes nothing on the values
    modelled here, where a numpy scalar and its Python value are the
    same. *)
Definition to_python (value : pyval) : pyval :=
  match isna_truth value with
  | OK true => PNone
  | _ => value
  end.

Definition parse_error (idx : Z) (e : exn) : string :=
  "Row " +:+ pretty idx +:+ ": vaccine_types parse error - " +:+ exn_msg e.

(** One turn of the loop over [df.iterrows()]. *)
Definition convert_row (idx : Z) (row : record) : record * list string :=
  let record := row in
  let '(record, errors) :=
    match parse_row row with
    | OK v => (<["vaccine_types" := v]> record, [])
    | Raise e => (<["vaccine_types" := PList []]> record, [parse_error idx e])
    end in
  (to_python <$> record, errors).

(** Convert annotated DataFrame to list of dicts with parsed fields. *)
Definition convert_annotated (df : dataframe) : list record * list string :=
  fold_left
    (fun '(records, parse_errors) '(idx, row) =>
       let '(record, errors) := convert_row idx row in
       (records ++ [record], parse_errors ++ errors))
    df ([], []).

(** *** [pd.isna] raises nothing but [ValueError] *)

Lemma isna_truth_ValueError value e :
  isna_truth value = Raise e -> exn_kind e = ValueError.
Proof.
  destruct value as [| |b|z|q|s|l|d]; cbn; try discriminate.
  unfold array_truth.
  destruct (array_elements l) as [|x [|y l']].
  - destruct empty_array_truth; [discriminate|]. intros H. injection H as <-.
    reflexivity.
  - discriminate.
  - intros H. injection H as <-. reflexivity.
Qed.

(** *** The loop, row by row *)

Lemma convert_annotated_acc df records parse_errors :
  fold_left
    (fun '(records, parse_errors) '(idx, row) =>
       let '(record, errors) := convert_row idx row in
       (records ++ [record], parse_errors ++ errors))
    df (records, parse_errors)
  = (records ++ map (fun p => fst (convert_row p.1 p.2)) df,
     parse_errors ++ concat (map (fun p => snd (convert_row p.1 p.2)) df)).
Proof.
  revert records parse_errors.
  induction df as [|[idx row] df IH]; intros records parse_errors; cbn.
  - rewrite !app_nil_r. reflexivity.
  - destruct (convert_row idx row) as [r es] eqn:E.
    rewrite IH. cbn. rewrite <- !app_assoc. reflexivity.
Qed.

Lemma convert_annotated_map df :
  convert_annotated df
  = (map (fun p => fst (convert_row p.1 p.2)) df,
     concat (map (fun p => snd (convert_row p.1 p.2)) df)).
Proof. unfold convert_annotated. rewrite convert_annotated_acc. reflexivity. Qed.

Lemma to_python_empty_list :
  empty_array_truth <> Some true -> to_python (PList []) = PList [].
Proof.
  intros H. unfold to_python, isna_truth, array_truth, array_elements. cbn.
  destruct empty_array_truth as [[|]|]; congruence.
Qed.

Lemma parse_vaccine_types_str s :
  s <> EmptyString ->
  parse_vaccine_types (PStr s)
  = match json_loads s with
    | OK v => OK v
    | Raise e => if is_JSONDecodeError e then OK (PList [PStr s]) else Raise e
    end.
Proof.
  intros Hs. unfold parse_vaccine_types. cbn.
  destruct (String.eqb_spec s EmptyString) as [E|_]; [contradiction|]. reflexivity.
Qed.

Lemma convert_row_errors idx row :
  snd (convert_row idx row)
  = match parse_row row with
    | Raise e => [parse_error idx e]
    | OK _ => []
    end.
Proof. unfold convert_row. destruct (parse_row row); reflexivity. Qed.

Lemma convert_annotated_errors df :
  snd (convert_annotated df)
  = omap (fun '(idx, row) =>
            match parse_row row with
            | Raise e => Some (parse_error idx e)
            | OK _ => None
            end) df.
Proof.
  rewrite convert_annotated_map. cbn [snd].
  induction df as [|[idx row] df IH]; [reflexivity|].
  cbn. rewrite convert_row_errors, IH.
  destruct (parse_row row); reflexivity.
Qed.

(** The text of a parse error names its row: the index label can be read
    off it. *)
Lemma parse_error_row (idx idx' : Z) (m m' : string) :
  "Row " +:+ pretty idx +:+ ": vaccine_types parse error - " +:+ m
  = "Row " +:+ pretty idx' +:+ ": vaccine_types parse error - " +:+ m' ->
  idx = idx'.
Proof.
  intros H. cbn [String.app] in H. injection H as H.
  apply Decimal.colon_head_inj in H; try apply Decimal.has_colon_pretty_Z.
  apply (inj pretty). exact H.
Qed.

(** C4: what [parse_vaccine_types] does with a cell that already holds a
    list (one without a list among its elements) is not what lines 99 to
    101 are written for.  A list of two or more elements does not come
    back: the test [pd.isna(value)] of line 96 raises NumPy's
    [ValueError] before the [try] is entered.  Of the lists of one
    element, the one that holds a missing marker comes back as [], the
    others unchanged; the empty list comes back unchanged where NumPy
    gives an empty array a truth value and raises where it does not. *)
Theorem parse_vaccine_types_on_lists (l : list pyval) :
  existsb is_list l = false ->
  ((2 <= length l)%nat ->
   parse_vaccine_types (PList l) = Raise ambiguous_truth_value
   /\ exn_msg ambiguous_truth_value
      = ("The truth value of an array with more than one element is "
         +:+ "ambiguous. Use a.any() or a.all()")%string
   /\ parse_vaccine_types (PList l) <> OK (PList l))
  /\ (forall x, l = [x] ->
      parse_vaccine_types (PList l)
      = OK (if is_missing x then PList [] else PList l))
  /\ (l = [] ->
      parse_vaccine_types (PList l)
      = match empty_array_truth with
        | Some _ => OK (PList [])
        | None => Raise empty_truth_value
        end).
Proof.
  intros Hflat. unfold parse_vaccine_types, isna_truth, array_truth,
    array_elements. rewrite Hflat.
  split; [|split].
  - intros Hlen. destruct l as [|x [|y l']]; cbn in Hlen; try lia.
    cbn. split; [reflexivity|]. split; [reflexivity|discriminate].
  - intros x ->. cbn. destruct (is_missing x); reflexivity.
  - intros ->. cbn. destruct empty_array_truth as [[|]|]; reflexivity.
Qed.

(** X14: [parse_vaccine_types] raises nothing of its own on a value that
    is not a list.  A value that is neither a string, nor a missing
    marker, nor a list (a number, a boolean, a dict) comes back unchanged;
    on a non-empty string the outcome is that of [json.loads], with
    [JSONDecodeError] turned into the one-element fallback and every other
    exception passed on to the caller; so, as long as the decoder raises
    nothing but [JSONDecodeError], no value that is not a list makes
    [parse_vaccine_types] raise. *)
Theorem parse_vaccine_types_passes_through (value : pyval) :
  (is_missing value = false -> is_str value = false -> is_list value = false ->
   parse_vaccine_types value = OK value)
  /\ (forall s, value = PStr s -> s <> EmptyString ->
      parse_vaccine_types value
      = match json_loads s with
        | OK v => OK v
        | Raise e => if is_JSONDecodeError e then OK (PList [value]) else Raise e
        end)
  /\ (is_list value = false ->
      (forall s e, value = PStr s -> json_loads s = Raise e ->
                   is_JSONDecodeError e = true) ->
      is_ok (parse_vaccine_types value) = true).
Proof.
  split; [|split].
  - intros Hm Hs Hl. destruct value; cbn in *; try discriminate; reflexivity.
  - intros s -> Hs. apply parse_vaccine_types_str. exact Hs.
  - intros Hl Hdec. destruct value as [| |b|z|q|s|l|d]; cbn in *;
      try discriminate; try reflexivity.
    unfold parse_vaccine_types. cbn.
    destruct (String.eqb s EmptyString); [reflexivity|].
    destruct (json_loads s) as [v|e] eqn:E; [reflexivity|].
    rewrite (Hdec s e eq_refl E). reflexivity.
Qed.

(** C5: a missing or empty cell yields []; a string that [json.loads]
    decodes to an array yields exactly that array, and "[]" yields [];
    a string on which [json.loads] raises [JSONDecodeError] yields the
    one-element array of the raw string, as "not json" does. *)
Theorem parse_vaccine_types_cases :
  (forall value, is_missing value = true \/ value = PStr EmptyString ->
     parse_vaccine_types value = OK (PList []))
  /\ (forall s a, s <> EmptyString -> json_loads s = OK (PList a) ->
        parse_vaccine_types (PStr s) = OK (PList a))
  /\ (json_loads "[]" = OK (PList []) ->
        parse_vaccine_types (PStr "[]") = OK (PList []))
  /\ (forall s e, s <> EmptyString -> json_loads s = Raise e ->
        is_JSONDecodeError e = true ->
        parse_vaccine_types (PStr s) = OK (PList [PStr s]))
  /\ (forall e, json_loads "not json" = Raise e ->
        is_JSONDecodeError e = true ->
        parse_vaccine_types (PStr "not json") = OK (PList [PStr "not json"])).
Proof.
  assert (Harr : forall s a, s <> EmptyString -> json_loads s = OK (PList a) ->
                   parse_vaccine_types (PStr s) = OK (PList a)).
  { intros s a Hs H. rewrite parse_vaccine_types_str, H by exact Hs. reflexivity. }
  assert (Hbad : forall s e, s <> EmptyString -> json_loads s = Raise e ->
                   is_JSONDecodeError e = true ->
                   parse_vaccine_types (PStr s) = OK (PList [PStr s])).
  { intros s e Hs H He. rewrite parse_vaccine_types_str, H, He by exact Hs.
    reflexivity. }
  repeat split.
  - intros value [Hm | ->]; [|reflexivity].
    destruct value; cbn in Hm; try discriminate; reflexivity.
  - exact Harr.
  - apply Harr. discriminate.
  - exact Hbad.
  - intros e. apply Hbad. discriminate.
Qed.

(** C6: [convert_annotated] returns one record per row of the table, in
    the order of the table: the record at position [i] is made from the
    row at position [i] (every other column converted in place, the
    parsed value under [vaccine_types]).  A row whose parse raises still
    gets its record, with [vaccine_types] set to [], and the returned list
    gets the text "Row ", the row's index label, ": vaccine_types parse
    error - " and the exception's message; the list holds exactly these
    texts, in row order, the batch goes on, and the index label of the row
    can be read off its text. *)
Theorem convert_annotated_one_record_per_row (df : dataframe) :
  empty_array_truth <> Some true ->
  length (convert_annotated df).1 = length df
  /\ (forall (i : nat) idx row, df !! i = Some (idx, row) ->
      exists rec,
        (convert_annotated df).1 !! i = Some rec
        /\ (forall key, key <> "vaccine_types"%string ->
              rec !! key = to_python <$> row !! key)
        /\ (forall v, parse_row row = OK v ->
              rec !! "vaccine_types" = Some (to_python v))
        /\ (forall e, parse_row row = Raise e ->
              rec !! "vaccine_types" = Some (PList [])
              /\ ("Row " +:+ pretty idx +:+ ": vaccine_types parse error - "
                  +:+ exn_msg e)
                 ∈ (convert_annotated df).2))
  /\ (convert_annotated df).2
     = omap (fun '(idx, row) =>
               match parse_row row with
               | Raise e =>
                   Some ("Row " +:+ pretty idx
                         +:+ ": vaccine_types parse error - " +:+ exn_msg e)
               | OK _ => None
               end) df
  /\ (forall (idx idx' : Z) (m m' : string),
        "Row " +:+ pretty idx +:+ ": vaccine_types parse error - " +:+ m
        = "Row " +:+ pretty idx' +:+ ": vaccine_types parse error - " +:+ m' ->
        idx = idx').
Proof.
  intros Hempty. split; [|split; [|split]].
  - rewrite convert_annotated_map. cbn [fst]. apply length_map.
  - intros i idx row Hi.
    exists (fst (convert_row idx row)). split; [|split; [|split]].
    + rewrite convert_annotated_map. cbn [fst].
      rewrite list_lookup_fmap, Hi. reflexivity.
    + intros key Hkey. unfold convert_row.
      destruct (parse_row row); cbn [fst];
        rewrite lookup_fmap, lookup_insert_ne by congruence; reflexivity.
    + intros v Hv. unfold convert_row. rewrite Hv. cbn [fst].
      rewrite lookup_fmap, lookup_insert_eq. reflexivity.
    + intros e He. split.
      * unfold convert_row. rewrite He. cbn [fst].
        rewrite lookup_fmap, lookup_insert_eq. cbn.
        rewrite to_python_empty_list by exact Hempty. reflexivity.
      * rewrite convert_annotated_errors.
        apply list_elem_of_omap. exists (idx, row). split.
        -- apply list_elem_of_lookup. exists i. exact Hi.
        -- cbn. rewrite He. reflexivity.
  - apply convert_annotated_errors.
  - exact parse_error_row.
Qed.

End Convert.

End Annotated.

(** ** Data Conversion Functions: the thread table *)

(** One post of a thread, as it goes into the JSON document. *)
Record post := {
  post_id : option Z;
  author_role : option string;
  timestamp : option string;
  content : string;
  sentiment : string;
  has_vaccine_keyword : bool;
  replies_to_post_number : option Z
}.

Module Threads.

Section Grouper.

(** The values of the thread_id column, their order and Python's [int]
    on them.  A column has one type: [pd.read_csv] makes it int64 when
    every cell is a whole number, float64 when a cell is missing or has a
    fraction, and text otherwise.  [int] cuts the fraction of a float off
    and raises on an infinity and on a text that is no number. *)
Variable K : Type.
Context {K_eq_dec : EqDecision K}.
Variable id_leb : K -> K -> bool.
Variable int_of_id : K -> result Z.

(** The values of the columns post_id and replies_to_post_number, numbers
    as well, and [int] on them. *)
Variable N : Type.
Variable int_of_num : N -> result Z.

(** The values of the timestamp column, their order and their [str()]. *)
Variable T : Type.
Context {T_eq_dec : EqDecision T}.
Variable ts_leb : T -> T -> bool.
Variable ts_str : T -> string.

(** One row of the thread table, each column with the type the table's
    schema gives it; [None] is a missing cell. *)
Record thread_row := {
  col_thread_id : option K;
  col_post_id : option N;
  col_author_role : option string;
  col_timestamp : option T;
  col_content : option string;
  col_sentiment : option string;
  col_has_vaccine_keyword : option bool;
  col_replies_to_post_number : option N
}.

(** [int(cell) if pd.notna(cell) else None] *)
Definition int_or_none (cell : option N) : result (option Z) :=
  match cell with
  | Some x => Some <$> int_of_num x
  | None => OK None
  end.

(** The dict built for one row in the inner loop. *)
Definition make_post (row : thread_row) : result post :=
  post_id ← int_or_none (col_post_id row);
  replies_to_post_number ← int_or_none (col_replies_to_post_number row);
  OK {| post_id := post_id;
        author_role := col_author_role row;
        timestamp := ts_str <$> col_timestamp row;
        content := default EmptyString (col_content row);
        sentiment := default "neutral"%string (col_sentiment row);
        has_vaccine_keyword := default false (col_has_vaccine_keyword row);
        replies_to_post_number := replies_to_post_number |}.

(** *** [df.sort_values(['thread_id', 'timestamp'])] *)

(** Ascending order on one column, missing cells last. *)
Definition na_last_leb {A} (leb : A -> A -> bool) (a b : option A) : bool :=
  match a, b with
  | Some x, Some y => leb x y
  | Some _, None => true
  | None, Some _ => false
  | None, None => true
  end.

Definition timestamp_leb (r1 r2 : thread_row) : bool :=
  na_last_leb ts_leb (col_timestamp r1) (col_timestamp r2).

(** The order on the two sort columns: thread_id first, timestamp among
    rows of the same thread_id. *)
Definition key_leb (r1 r2 : thread_row) : bool :=
  match col_thread_id r1, col_thread_id r2 with
  | Some a, Some b => if decide (a = b) then timestamp_leb r1 r2 else id_leb a b
  | Some _, None => true
  | None, Some _ => false
  | None, None => timestamp_leb r1 r2
  end.

(** The sort on several columns is stable: a row goes in front of the
    first row that is not below it, rows of equal keys stay in the order
    of the table. *)
Fixpoint insert_row (leb : thread_row -> thread_row -> bool)
    (r : thread_row) (l : list thread_row) : list thread_row :=
  match l with
  | [] => [r]
  | x :: l' => if leb r x then r :: l else x :: insert_row leb r l'
  end.

Definition sort_rows (leb : thread_row -> thread_row -> bool)
    (l : list thread_row) : list thread_row :=
  foldr (insert_row leb) [] l.

Definition sort_values (df : list thread_row) : list thread_row :=
  sort_rows key_leb df.

(** *** [df.groupby('thread_id')] *)

Definition in_thread (k : K) (r : thread_row) : Prop := col_thread_id r = Some k.

Global Instance in_thread_dec k r : Decision (in_thread k r).
Proof. unfold in_thread. apply _. Defined.

Definition has_thread_id (r : thread_row) : Prop := is_Some (col_thread_id r).

Global Instance has_thread_id_dec r : Decision (has_thread_id r).
Proof. unfold has_thread_id. apply _. Defined.

Fixpoint insert_key (k : K) (ks : list K) : list K :=
  match ks with
  | [] => [k]
  | x :: ks' =>
      if decide (k = x) then ks
      else if id_leb k x then k :: ks
      else x :: insert_key k ks'
  end.

(** The group keys: the thread ids present, each once, ascending; a
    missing thread_id is no key ([dropna=True]). *)
Definition group_keys (df : list thread_row) : list K :=
  foldr insert_key [] (omap col_thread_id df).

(** The groups in key order, the rows of a group in table order. *)
Definition groupby (df : list thread_row) : list (K * list thread_row) :=
  map (fun k => (k, filter (in_thread k) df)) (group_keys df).

(** One turn of the loop over the groups: the posts of the group go
    under the key [str(int(thread_id))], in the place of what was there. *)
Definition store_group (threads : result (gmap string (list post)))
    (g : K * list thread_row) : result (gmap string (list post)) :=
  let '(thread_id, group) := g in
  threads ← threads;
  posts ← mapM make_post group;
  key ← int_of_id thread_id;
  OK (<[pretty key := posts]> threads).

(** Convert threads DataFrame to dict grouped by thread_id.  The dict is
    local to the function: an exception of [int], on a post id or on a
    thread id, leaves nothing of it. *)
Definition convert_threads (df : list thread_row)
    : result (gmap string (list post)) :=
  let threads := ∅ in
  let df := sort_values df in
  fold_left store_group (groupby df) (OK threads).

(** [sum(len(posts) for posts in threads_dict.values())] *)
Definition total_posts (threads_dict : gmap string (list post)) : nat :=
  sum_list (length <$> (map_to_list threads_dict).*2).

(** A thread id occurs in the table. *)
Definition present (df : list thread_row) (thread_id : K) : Prop :=
  exists r, r ∈ df /\ in_thread thread_id r.

(** No two thread ids of the table have the same key in the dict. *)
Definition distinct_keys (df : list thread_row) : Prop :=
  forall id id' k, present df id -> present df id' ->
    int_of_id id = OK k -> int_of_id id' = OK k -> id = id'.

(** [thread_id] has the key [str(k)], and is the last of the thread ids
    of the table with that key in the order of the loop. *)
Definition last_of_key (df : list thread_row) (thread_id : K) (k : Z) : Prop :=
  present df thread_id
  /\ int_of_id thread_id = OK k
  /\ forall id', present df id' -> int_of_id id' = OK k ->
       id_leb id' thread_id = true.

Lemma filter_none {A} (P : A -> Prop) `{forall x, Decision (P x)} (l : list A) :
  Forall (fun x => ~ P x) l -> filter P l = [].
Proof.
  induction 1 as [|x l Hx _ IH]; [reflexivity|].
  rewrite filter_cons_False by exact Hx. exact IH.
Qed.

(** *** The group keys *)

Lemma elem_of_insert_key x k ks : x ∈ insert_key k ks <-> x = k \/ x ∈ ks.
Proof.
  induction ks as [|y ks IH]; cbn.
  - rewrite list_elem_of_singleton. split; [intros ->; left; reflexivity|].
    intros [->|H]; [reflexivity|inversion H].
  - destruct (decide (k = y)) as [->|Hne].
    + split; [intros Hx; right; exact Hx|].
      intros [->|Hx]; [left|exact Hx].
    + destruct (id_leb k y); [apply elem_of_cons|].
      rewrite !elem_of_cons, IH. tauto.
Qed.

Lemma elem_of_group_keys k df : k ∈ group_keys df <-> present df k.
Proof.
  unfold group_keys, present, in_thread.
  induction df as [|r df IH]; cbn.
  - split; [intros H; inversion H|intros (r & H & _); inversion H].
  - destruct (col_thread_id r) as [k'|] eqn:E; cbn.
    + rewrite elem_of_insert_key, IH. split.
      * intros [->|(r' & Hr' & Hk)]; [exists r; split; [left|exact E]|].
        exists r'. split; [right; exact Hr'|exact Hk].
      * intros (r' & Hr' & Hk). apply elem_of_cons in Hr' as [->|Hr'].
        -- left. congruence.
        -- right. exists r'. split; assumption.
    + rewrite IH. split.
      * intros (r' & Hr' & Hk). exists r'. split; [right; exact Hr'|exact Hk].
      * intros (r' & Hr' & Hk). apply elem_of_cons in Hr' as [->|Hr'].
        -- congruence.
        -- exists r'. split; assumption.
Qed.

Lemma insert_row_Permutation leb r l : insert_row leb r l ≡ₚ r :: l.
Proof.
  induction l as [|x l IH]; cbn; [reflexivity|].
  destruct (leb r x); [reflexivity|].
  rewrite IH. apply Permutation_swap.
Qed.

Lemma sort_rows_Permutation leb l : sort_rows leb l ≡ₚ l.
Proof.
  induction l as [|x l IH]; cbn; [reflexivity|].
  rewrite insert_row_Permutation, IH. reflexivity.
Qed.

Lemma present_sort_values k df : present (sort_values df) k <-> present df k.
Proof.
  unfold sort_values, present.
  split; intros (r & Hr & Hk); exists r; (split; [|exact Hk]).
  - rewrite sort_rows_Permutation in Hr. exact Hr.
  - rewrite sort_rows_Permutation. exact Hr.
Qed.

Lemma present_filter_has_thread_id k (df : list thread_row) :
  present (filter has_thread_id df) k <-> present df k.
Proof.
  unfold present. split; intros (r & Hr & Hk); exists r; (split; [|exact Hk]).
  - apply list_elem_of_filter in Hr as [_ Hr]. exact Hr.
  - apply list_elem_of_filter. split; [|exact Hr].
    unfold has_thread_id. rewrite Hk. eauto.
Qed.

(** *** What the proofs assume of the order of the thread ids: it is a
    total order *)

Hypothesis id_leb_total : forall a b, id_leb a b = true \/ id_leb b a = true.
Hypothesis id_leb_trans : forall a b c,
  id_leb a b = true -> id_leb b c = true -> id_leb a c = true.
Hypothesis id_leb_antisym : forall a b,
  id_leb a b = true -> id_leb b a = true -> a = b.

Definition id_lt (a b : K) : Prop := id_leb a b = true /\ a <> b.

Lemma id_leb_refl a : id_leb a a = true.
Proof. destruct (id_leb_total a a); assumption. Qed.

Lemma id_lt_trans a b c : id_lt a b -> id_lt b c -> id_lt a c.
Proof.
  intros [Hab Hne] [Hbc Hne']. split; [eapply id_leb_trans; eassumption|].
  intros ->. apply Hne, id_leb_antisym; assumption.
Qed.

Lemma insert_key_sorted k ks :
  StronglySorted id_lt ks -> StronglySorted id_lt (insert_key k ks).
Proof.
  induction 1 as [|y ks Hs IH Hy]; cbn.
  - repeat constructor.
  - destruct (decide (k = y)) as [->|Hne]; [constructor; assumption|].
    destruct (id_leb k y) eqn:E.
    + constructor; [constructor; assumption|].
      constructor; [split; assumption|].
      eapply Forall_impl; [exact Hy|]. intros z Hz. cbn in Hz.
      apply (id_lt_trans k y z); [split; assumption|exact Hz].
    + constructor; [exact IH|].
      apply Forall_forall. intros z Hz.
      apply elem_of_insert_key in Hz as [->|Hz].
      * split; [|congruence].
        destruct (id_leb_total k y) as [H|H]; [congruence|exact H].
      * rewrite Forall_forall in Hy. apply Hy. exact Hz.
Qed.

Lemma group_keys_sorted df : StronglySorted id_lt (group_keys df).
Proof.
  unfold group_keys. induction (omap col_thread_id df) as [|k ks IH]; cbn.
  - constructor.
  - apply insert_key_sorted. exact IH.
Qed.

Lemma strictly_sorted_NoDup (l : list K) : StronglySorted id_lt l -> NoDup l.
Proof.
  induction 1 as [|x l Hs IH Hx]; constructor; [|exact IH].
  intros Hin. rewrite Forall_forall in Hx. destruct (Hx x Hin) as [_ Hne].
  apply Hne. reflexivity.
Qed.

Lemma NoDup_group_keys df : NoDup (group_keys df).
Proof. apply strictly_sorted_NoDup, group_keys_sorted. Qed.

(** An ascending list without repetition is fixed by its elements. *)
Lemma strictly_sorted_unique (l1 l2 : list K) :
  StronglySorted id_lt l1 -> StronglySorted id_lt l2 ->
  (forall x, x ∈ l1 <-> x ∈ l2) -> l1 = l2.
Proof.
  intros H1. revert l2. induction H1 as [|x l1 Hs1 IH Hx]; intros l2 H2 Heq.
  - destruct l2 as [|y l2]; [reflexivity|].
    exfalso. assert (Hy : y ∈ []) by (apply Heq; left). inversion Hy.
  - destruct H2 as [|y l2 Hs2 Hy].
    { exfalso. assert (Hin : x ∈ []) by (apply Heq; left). inversion Hin. }
    rewrite Forall_forall in Hx, Hy.
    assert (Hxy : x = y).
    { assert (Hx' : x ∈ y :: l2) by (apply Heq; left).
      assert (Hy' : y ∈ x :: l1) by (apply Heq; left).
      apply elem_of_cons in Hx' as [->|Hx']; [reflexivity|].
      apply elem_of_cons in Hy' as [->|Hy']; [reflexivity|].
      destruct (Hx y Hy') as [Hle _]. destruct (Hy x Hx') as [Hle' _].
      apply id_leb_antisym; assumption. }
    subst y. f_equal. apply IH; [exact Hs2|].
    intros z. split; intros Hz.
    + assert (Hz' : z ∈ x :: l2) by (apply Heq; right; exact Hz).
      apply elem_of_cons in Hz' as [->|Hz']; [|exact Hz'].
      destruct (Hx x Hz) as [_ Hne]. exfalso. apply Hne. reflexivity.
    + assert (Hz' : z ∈ x :: l1) by (apply Heq; right; exact Hz).
      apply elem_of_cons in Hz' as [->|Hz']; [|exact Hz'].
      destruct (Hy x Hz) as [_ Hne]. exfalso. apply Hne. reflexivity.
Qed.

(** The group keys depend on the thread ids that occur, not on the rows. *)
Lemma group_keys_ext df df' :
  (forall k, present df k <-> present df' k) -> group_keys df = group_keys df'.
Proof.
  intros H. apply strictly_sorted_unique; try apply group_keys_sorted.
  intros x. rewrite !elem_of_group_keys. apply H.
Qed.

(** *** The sort *)

(** The order of the first sort column alone. *)
Definition tid_le (r1 r2 : thread_row) : Prop :=
  match col_thread_id r1, col_thread_id r2 with
  | Some a, Some b => id_leb a b = true
  | _, None => True
  | None, Some _ => False
  end.

Lemma tid_le_trans r1 r2 r3 : tid_le r1 r2 -> tid_le r2 r3 -> tid_le r1 r3.
Proof.
  unfold tid_le.
  destruct (col_thread_id r1), (col_thread_id r2), (col_thread_id r3);
    intros; try tauto. eapply id_leb_trans; eassumption.
Qed.

Lemma key_leb_tid_le r x : key_leb r x = true -> tid_le r x.
Proof.
  unfold key_leb, tid_le.
  destruct (col_thread_id r) as [a|], (col_thread_id x) as [b|];
    try tauto; try discriminate.
  destruct (decide (a = b)) as [->|]; [intros _; apply id_leb_refl|tauto].
Qed.

Lemma key_leb_false_tid_le r x : key_leb r x = false -> tid_le x r.
Proof.
  unfold key_leb, tid_le.
  destruct (col_thread_id r) as [a|], (col_thread_id x) as [b|];
    try tauto; try discriminate.
  destruct (decide (a = b)) as [->|]; [intros _; apply id_leb_refl|].
  intros H. destruct (id_leb_total a b) as [H'|H']; [congruence|exact H'].
Qed.

Lemma elem_of_insert_row leb x r l : x ∈ insert_row leb r l <-> x = r \/ x ∈ l.
Proof. rewrite insert_row_Permutation, elem_of_cons. reflexivity. Qed.

Lemma insert_row_tid_sorted r l :
  StronglySorted tid_le l -> StronglySorted tid_le (insert_row key_leb r l).
Proof.
  induction 1 as [|x l Hs IH Hx]; cbn.
  - repeat constructor.
  - destruct (key_leb r x) eqn:E.
    + constructor; [constructor; assumption|].
      apply key_leb_tid_le in E.
      constructor; [exact E|].
      eapply Forall_impl; [exact Hx|]. intros z Hz. cbn in Hz.
      eapply tid_le_trans; eassumption.
    + constructor; [exact IH|].
      apply Forall_forall. intros z Hz.
      apply elem_of_insert_row in Hz as [->|Hz].
      * apply key_leb_false_tid_le. exact E.
      * rewrite Forall_forall in Hx. apply Hx. exact Hz.
Qed.

Lemma sort_values_tid_sorted df : StronglySorted tid_le (sort_values df).
Proof.
  unfold sort_values, sort_rows.
  induction df as [|r df IH]; cbn; [constructor|].
  apply insert_row_tid_sorted. exact IH.
Qed.

(** Among the rows of one thread, the two-column order is the order of
    the timestamps. *)
Lemma key_leb_in_thread k r x :
  in_thread k r -> in_thread k x -> key_leb r x = timestamp_leb r x.
Proof.
  unfold in_thread, key_leb. intros -> ->.
  destruct (decide (k = k)); [reflexivity|contradiction].
Qed.

Lemma filter_in_thread_insert k r l :
  StronglySorted tid_le l ->
  filter (in_thread k) (insert_row key_leb r l)
  = if decide (in_thread k r)
    then insert_row timestamp_leb r (filter (in_thread k) l)
    else filter (in_thread k) l.
Proof.
  induction 1 as [|x l Hs IH Hx]; cbn [insert_row].
  - rewrite filter_cons, filter_nil.
    destruct (decide (in_thread k r)); reflexivity.
  - destruct (key_leb r x) eqn:E.
    + rewrite (filter_cons _ r).
      destruct (decide (in_thread k r)) as [Hr|Hr]; [|reflexivity].
      rewrite (filter_cons _ x).
      destruct (decide (in_thread k x)) as [Hxk|Hxk].
      * cbn [insert_row].
        rewrite <- (key_leb_in_thread k r x Hr Hxk), E. reflexivity.
      * (* every row from [x] on belongs to a later thread *)
        assert (Hnone : filter (in_thread k) l = []).
        { apply filter_none. apply Forall_forall. intros z Hz Hzk.
          rewrite Forall_forall in Hx. specialize (Hx z Hz).
          apply key_leb_tid_le in E.
          unfold in_thread, tid_le in *. rewrite Hr in E. rewrite Hzk in Hx.
          destruct (col_thread_id x) as [b|]; [|tauto].
          apply Hxk. f_equal. apply id_leb_antisym; assumption. }
        rewrite Hnone. reflexivity.
    + rewrite !(filter_cons _ x), IH.
      destruct (decide (in_thread k r)) as [Hr|Hr];
        destruct (decide (in_thread k x)) as [Hxk|Hxk]; try reflexivity.
      cbn [insert_row].
      rewrite <- (key_leb_in_thread k r x Hr Hxk), E. reflexivity.
Qed.

(** The rows of one thread, taken out of the sorted table, are the rows
    of that thread sorted by timestamp. *)
Lemma filter_in_thread_sort k df :
  filter (in_thread k) (sort_values df)
  = sort_rows timestamp_leb (filter (in_thread k) df).
Proof.
  unfold sort_values.
  induction df as [|r df IH]; [reflexivity|].
  cbn [sort_rows foldr].
  rewrite filter_in_thread_insert by apply sort_values_tid_sorted.
  rewrite filter_cons.
  destruct (decide (in_thread k r)); cbn [sort_rows foldr];
    fold (sort_rows key_leb df); rewrite IH; reflexivity.
Qed.

(** *** The loop over the groups *)

Lemma group_keys_present id df :
  id ∈ group_keys (sort_values df) <-> present df id.
Proof. rewrite elem_of_group_keys. apply present_sort_values. Qed.

(** The post of a row, where [make_post] returns. *)
Definition int_if_any (cell : option N) : option Z :=
  match cell with
  | Some x => match int_of_num x with OK z => Some z | Raise _ => None end
  | None => None
  end.

Definition post_of (row : thread_row) : post :=
  {| post_id := int_if_any (col_post_id row);
     author_role := col_author_role row;
     timestamp := ts_str <$> col_timestamp row;
     content := default EmptyString (col_content row);
     sentiment := default "neutral"%string (col_sentiment row);
     has_vaccine_keyword := default false (col_has_vaccine_keyword row);
     replies_to_post_number := int_if_any (col_replies_to_post_number row) |}.

Lemma int_or_none_if_any cell z : int_or_none cell = OK z -> z = int_if_any cell.
Proof.
  unfold int_or_none, int_if_any. destruct cell as [x|]; [|congruence].
  destruct (int_of_num x); cbn; congruence.
Qed.

Lemma make_post_post_of row p : make_post row = OK p -> p = post_of row.
Proof.
  unfold make_post, post_of.
  destruct (int_or_none (col_post_id row)) as [a|e] eqn:Ea; [|discriminate].
  destruct (int_or_none (col_replies_to_post_number row)) as [b|e] eqn:Eb;
    [|discriminate].
  cbn. intros H. injection H as <-.
  rewrite (int_or_none_if_any _ _ Ea), (int_or_none_if_any _ _ Eb). reflexivity.
Qed.

Lemma mapM_make_post rows :
  Forall (fun r => is_ok (make_post r) = true) rows ->
  mapM make_post rows = OK (map post_of rows).
Proof.
  induction 1 as [|r rows Hr _ IH]; [reflexivity|].
  cbn. destruct (make_post r) as [p|e] eqn:E; [|discriminate].
  rewrite IH. cbn. rewrite (make_post_post_of r p E). reflexivity.
Qed.

Lemma mapM_make_post_OK rows posts :
  mapM make_post rows = OK posts ->
  posts = map post_of rows /\ Forall (fun r => is_ok (make_post r) = true) rows.
Proof.
  revert posts. induction rows as [|r rows IH]; intros posts; cbn.
  - intros H. injection H as <-. split; [reflexivity|constructor].
  - destruct (make_post r) as [p|e] eqn:E; [|discriminate].
    destruct (mapM make_post rows) as [ps|e]; [|discriminate].
    cbn. intros H. injection H as <-.
    destruct (IH ps eq_refl) as [-> Hall].
    split; [rewrite (make_post_post_of r p E); reflexivity|].
    constructor; [rewrite E; reflexivity|exact Hall].
Qed.

Lemma mapM_make_post_raised rows e :
  mapM make_post rows = Raise e -> exists r, r ∈ rows /\ make_post r = Raise e.
Proof.
  induction rows as [|r rows IH]; cbn; [discriminate|].
  destruct (make_post r) as [p|e'] eqn:E.
  - destruct (mapM make_post rows) as [ps|e'']; [discriminate|].
    cbn. intros H. injection H as ->.
    destruct (IH eq_refl) as (r' & Hin & Hr').
    exists r'. split; [right; exact Hin|exact Hr'].
  - cbn. intros H. injection H as ->. exists r. split; [left|exact E].
Qed.

(** The posts of thread [k]: its rows in timestamp order. *)
Definition thread_posts (k : K) (df : list thread_row) : list post :=
  map post_of (sort_rows timestamp_leb (filter (in_thread k) df)).

(** [str(int(thread_id))], where [int] returns. *)
Definition key_text (thread_id : K) : string :=
  match int_of_id thread_id with
  | OK k => pretty k
  | Raise _ => EmptyString
  end.

(** The items the outer loop stores, in the order it stores them. *)
Definition thread_items (df : list thread_row) : list (string * list post) :=
  map (fun k => (key_text k, thread_posts k df)) (group_keys (sort_values df)).

(** [int] takes every thread id of the table, and the post id and the
    reply number of every row that has a thread id. *)
Definition accepted (df : list thread_row) : Prop :=
  (forall id, present df id -> is_ok (int_of_id id) = true)
  /\ (forall r, r ∈ df -> has_thread_id r -> is_ok (make_post r) = true).

(** The same of one group. *)
Definition group_accepted (rows : K -> list thread_row) (id : K) : Prop :=
  is_ok (int_of_id id) = true
  /\ Forall (fun r => is_ok (make_post r) = true) (rows id).

Global Instance group_accepted_dec rows id : Decision (group_accepted rows id).
Proof. unfold group_accepted. apply _. Defined.

Lemma key_text_OK id k : int_of_id id = OK k -> key_text id = pretty k.
Proof. unfold key_text. intros ->. reflexivity. Qed.

Lemma loop_raised (groups : list (K * list thread_row)) e :
  fold_left store_group groups (Raise e) = Raise e.
Proof. induction groups as [|[id g] groups IH]; [reflexivity|exact IH]. Qed.

Lemma loop_returns (rows : K -> list thread_row) ids m :
  Forall (group_accepted rows) ids ->
  fold_left store_group (map (fun k => (k, rows k)) ids) (OK m)
  = OK (fold_left (fun m id => <[key_text id := map post_of (rows id)]> m)
          ids m).
Proof.
  intros Hall. revert m. induction Hall as [|id ids [Hid Hrows] _ IH]; intros m.
  - reflexivity.
  - cbn. rewrite (mapM_make_post _ Hrows). cbn.
    unfold key_text at 2. destruct (int_of_id id) as [k|e]; [|discriminate].
    cbn. apply IH.
Qed.

Lemma loop_raises (rows : K -> list thread_row) ids m :
  ~ Forall (group_accepted rows) ids ->
  is_ok (fold_left store_group (map (fun k => (k, rows k)) ids) (OK m)) = false.
Proof.
  revert m. induction ids as [|id ids IH]; intros m Hnot.
  - exfalso. apply Hnot. constructor.
  - cbn. destruct (mapM make_post (rows id)) as [posts|e] eqn:Ep; cbn;
      [|rewrite loop_raised; reflexivity].
    destruct (int_of_id id) as [k|e] eqn:E; cbn;
      [|rewrite loop_raised; reflexivity].
    apply IH. intros Hall. apply Hnot. constructor; [|exact Hall].
    split; [rewrite E; reflexivity|].
    exact (proj2 (mapM_make_post_OK _ _ Ep)).
Qed.

Lemma fold_insert_list_to_map {A} (g : A -> string) (h : A -> list post) ids :
  fold_left (fun m id => <[g id := h id]> m) ids (∅ : gmap string (list post))
  = list_to_map (reverse (map (fun id => (g id, h id)) ids)).
Proof.
  induction ids as [|id ids IH] using rev_ind; [reflexivity|].
  rewrite map_app, fold_left_app. cbn [map fold_left].
  rewrite reverse_snoc, list_to_map_cons, IH. reflexivity.
Qed.

Lemma accepted_group_keys df :
  accepted df
  <-> Forall (group_accepted
                (fun k => sort_rows timestamp_leb (filter (in_thread k) df)))
        (group_keys (sort_values df)).
Proof.
  unfold accepted, group_accepted. rewrite Forall_forall. split.
  - intros [Hids Hrows] id Hid. split.
    + apply Hids. apply group_keys_present. exact Hid.
    + apply Forall_forall. intros r Hr. rewrite sort_rows_Permutation in Hr.
      apply list_elem_of_filter in Hr as [Hin Hr].
      apply Hrows; [exact Hr|]. unfold has_thread_id. rewrite Hin. eauto.
  - intros H. split.
    + intros id Hid. apply (H id). apply group_keys_present. exact Hid.
    + intros r Hr [id Hid].
      assert (Hp : present df id) by (exists r; split; assumption).
      destruct (H id (proj2 (group_keys_present id df) Hp)) as [_ Hrows].
      rewrite Forall_forall in Hrows. apply Hrows.
      rewrite sort_rows_Permutation. apply list_elem_of_filter.
      split; assumption.
Qed.

Lemma groupby_sort_values df :
  groupby (sort_values df)
  = map (fun k => (k, sort_rows timestamp_leb (filter (in_thread k) df)))
      (group_keys (sort_values df)).
Proof.
  unfold groupby. apply map_ext. intros k. rewrite filter_in_thread_sort.
  reflexivity.
Qed.

(** When [int] takes every thread id, [convert_threads] returns the dict
    of the items, a later item in the place of an earlier one of the same
    key. *)
Lemma convert_threads_accepted df :
  accepted df -> convert_threads df = OK (list_to_map (reverse (thread_items df))).
Proof.
  intros Hacc%accepted_group_keys. unfold convert_threads.
  rewrite groupby_sort_values, loop_returns by exact Hacc.
  rewrite (fold_insert_list_to_map key_text
             (fun id => map post_of
                          (sort_rows timestamp_leb (filter (in_thread id) df)))).
  reflexivity.
Qed.

(** [convert_threads] returns exactly when [int] takes what the loops
    give it. *)
Lemma convert_threads_is_ok df : is_ok (convert_threads df) = true <-> accepted df.
Proof.
  split.
  - intros Hok. apply accepted_group_keys.
    destruct (decide (Forall (group_accepted
                                (fun k => sort_rows timestamp_leb
                                            (filter (in_thread k) df)))
                        (group_keys (sort_values df)))) as [H|H]; [exact H|].
    unfold convert_threads in Hok.
    rewrite groupby_sort_values, loop_raises in Hok by exact H. discriminate.
  - intros H. rewrite convert_threads_accepted by exact H. reflexivity.
Qed.

Lemma loop_raise_of (rows : K -> list thread_row) ids m e :
  fold_left store_group (map (fun k => (k, rows k)) ids) (OK m) = Raise e ->
  exists id, id ∈ ids
             /\ (int_of_id id = Raise e
                 \/ exists r, r ∈ rows id /\ make_post r = Raise e).
Proof.
  revert m. induction ids as [|id ids IH]; intros m; cbn; [discriminate|].
  destruct (mapM make_post (rows id)) as [posts|e'] eqn:Ep; cbn.
  - destruct (int_of_id id) as [k|e'] eqn:E; cbn.
    + intros H. destruct (IH _ H) as (id' & Hin & Hid').
      exists id'. split; [right; exact Hin|exact Hid'].
    + rewrite loop_raised. intros H. injection H as ->.
      exists id. split; [left|left; exact E].
  - rewrite loop_raised. intros H. injection H as ->.
    exists id. split; [left|right]. apply mapM_make_post_raised. exact Ep.
Qed.

(** An exception of [convert_threads] is the exception of [int] on a
    thread id of the table, or on the post id or the reply number of a row
    that has a thread id. *)
Lemma convert_threads_raised df e :
  convert_threads df = Raise e ->
  (exists id, present df id /\ int_of_id id = Raise e)
  \/ (exists r, r ∈ df /\ has_thread_id r /\ make_post r = Raise e).
Proof.
  unfold convert_threads. rewrite groupby_sort_values. intros H.
  apply loop_raise_of in H as (id & Hin & [Hid|(r & Hr & He)]).
  - left. exists id. split; [apply group_keys_present; exact Hin|exact Hid].
  - right. rewrite sort_rows_Permutation in Hr.
    apply list_elem_of_filter in Hr as [Hk Hr].
    exists r. split; [exact Hr|]. split; [|exact He].
    unfold has_thread_id. rewrite Hk. eauto.
Qed.

Lemma convert_threads_OK df d :
  convert_threads df = OK d ->
  accepted df /\ d = list_to_map (reverse (thread_items df)).
Proof.
  intros H. assert (Hacc : accepted df).
  { apply convert_threads_is_ok. rewrite H. reflexivity. }
  split; [exact Hacc|].
  rewrite convert_threads_accepted in H by exact Hacc. congruence.
Qed.

(** Where [convert_threads] returns, the posts of rows that have a thread
    id are there. *)
Lemma accepted_mapM df rows :
  accepted df -> (forall r, r ∈ rows -> r ∈ df /\ has_thread_id r) ->
  mapM make_post rows = OK (map post_of rows).
Proof.
  intros [_ Hrows] Hsub. apply mapM_make_post, Forall_forall.
  intros r Hr. destruct (Hsub r Hr) as [Hin Hid]. exact (Hrows r Hin Hid).
Qed.

Lemma thread_rows_sub df id r :
  r ∈ sort_rows timestamp_leb (filter (in_thread id) df) ->
  r ∈ df /\ has_thread_id r.
Proof.
  rewrite sort_rows_Permutation. intros [Hk Hr]%list_elem_of_filter.
  split; [exact Hr|]. unfold has_thread_id. rewrite Hk. eauto.
Qed.

(** *** The dict *)

(** What the dict holds under a key: the posts of a thread id of the table
    that has this key. *)
Lemma convert_threads_lookup df d key posts :
  convert_threads df = OK d -> d !! key = Some posts ->
  exists id k, present df id /\ int_of_id id = OK k /\ key = pretty k
               /\ posts = thread_posts id df.
Proof.
  intros [Hacc ->]%convert_threads_OK H.
  apply elem_of_list_to_map_2 in H. rewrite elem_of_reverse in H.
  unfold thread_items in H. apply list_elem_of_fmap in H as (id & Heq & Hid).
  injection Heq as -> ->.
  apply group_keys_present in Hid.
  pose proof (proj1 Hacc id Hid) as Hok.
  destruct (int_of_id id) as [k|e] eqn:E; [|discriminate].
  exists id, k. repeat split; try assumption. apply key_text_OK. exact E.
Qed.

(** The keys of the dict: the keys of the thread ids of the table. *)
Lemma convert_threads_keys_of df d key :
  convert_threads df = OK d ->
  is_Some (d !! key)
  <-> exists id k, present df id /\ int_of_id id = OK k /\ key = pretty k.
Proof.
  intros Hd. split.
  - intros [posts H].
    destruct (convert_threads_lookup df d key posts Hd H)
      as (id & k & Hid & Hk & -> & _).
    exists id, k. repeat split; assumption.
  - intros (id & k & Hid & Hk & ->).
    apply convert_threads_OK in Hd as [_ ->].
    apply not_eq_None_Some. rewrite <- not_elem_of_list_to_map.
    intros Hnot. apply Hnot. rewrite fmap_reverse, elem_of_reverse.
    unfold thread_items. rewrite <- list_fmap_compose.
    apply list_elem_of_fmap. exists id. split.
    + cbn. symmetry. apply key_text_OK. exact Hk.
    + apply group_keys_present. exact Hid.
Qed.

Lemma strictly_sorted_after (l1 l2 : list K) x :
  StronglySorted id_lt (l1 ++ x :: l2) -> Forall (id_lt x) l2.
Proof.
  induction l1 as [|y l1 IH]; cbn; intros H.
  - inversion H; assumption.
  - inversion H; subst. apply IH. assumption.
Qed.

(** Under a key the dict holds the posts of the last thread id with that
    key. *)
Lemma convert_threads_lookup_last df d id k :
  convert_threads df = OK d -> last_of_key df id k ->
  d !! pretty k = Some (thread_posts id df).
Proof.
  intros [Hacc ->]%convert_threads_OK (Hid & Hk & Hlast).
  assert (Hin : id ∈ group_keys (sort_values df))
    by (apply group_keys_present; exact Hid).
  pose proof (group_keys_sorted (sort_values df)) as Hsorted.
  unfold thread_items.
  apply list_elem_of_split in Hin as (l1 & l2 & Heq).
  rewrite Heq in Hsorted |- *.
  apply strictly_sorted_after in Hsorted.
  rewrite map_app, reverse_app. cbn [map].
  rewrite reverse_cons, <- app_assoc, list_to_map_app.
  apply lookup_union_Some_raw. right. split.
  - apply not_elem_of_list_to_map_1. rewrite fmap_reverse, elem_of_reverse.
    rewrite <- list_fmap_compose. intros Hkey.
    apply list_elem_of_fmap in Hkey as (id' & Hkey & Hid'). cbn in Hkey.
    rewrite Forall_forall in Hsorted. destruct (Hsorted id' Hid') as [Hle Hne].
    assert (Hp : present df id').
    { apply group_keys_present. rewrite Heq.
      apply elem_of_app. right. right. exact Hid'. }
    pose proof (proj1 Hacc id' Hp) as Hok.
    destruct (int_of_id id') as [k'|e] eqn:E; [|discriminate].
    rewrite (key_text_OK id' k' E) in Hkey. apply (inj pretty) in Hkey. subst k'.
    apply Hne. apply id_leb_antisym; [exact Hle|]. apply Hlast; assumption.
  - cbn. rewrite (key_text_OK id k Hk). apply lookup_insert_eq.
Qed.

(** *** Every row in one group *)

Lemma concat_nils {A B} (l : list A) :
  concat (map (fun _ => @nil B) l) = [].
Proof. induction l as [|x l IH]; [reflexivity|exact IH]. Qed.

Lemma concat_groups_cons (f : K -> list thread_row) r k0 ks :
  NoDup ks -> k0 ∈ ks ->
  concat (map (fun k => if decide (k0 = k) then r :: f k else f k) ks)
  ≡ₚ r :: concat (map f ks).
Proof.
  induction 1 as [|k ks Hk Hnd IH]; intros Hin; [inversion Hin|].
  cbn [map concat].
  destruct (decide (k0 = k)) as [->|Hne].
  - cbn. constructor. apply Permutation_app_head.
    erewrite map_ext_in; [reflexivity|].
    intros k' Hk'. apply list_elem_of_In in Hk'.
    destruct (decide (k = k')) as [->|]; [contradiction|reflexivity].
  - apply elem_of_cons in Hin as [->|Hin]; [contradiction|].
    rewrite (IH Hin). symmetry. apply Permutation_middle.
Qed.

Lemma concat_groups ks df :
  NoDup ks ->
  (forall k, present df k -> k ∈ ks) ->
  concat (map (fun k => filter (in_thread k) df) ks)
  ≡ₚ filter has_thread_id df.
Proof.
  intros Hnd. induction df as [|r df IH]; intros Hks.
  - rewrite filter_nil.
    erewrite map_ext; [rewrite (concat_nils ks); reflexivity|].
    intros k. apply filter_nil.
  - assert (IH' : concat (map (fun k => filter (in_thread k) df) ks)
                  ≡ₚ filter has_thread_id df).
    { apply IH. intros k (r' & Hr' & Hk). apply Hks. exists r'.
      split; [right; exact Hr'|exact Hk]. }
    destruct (col_thread_id r) as [k0|] eqn:E.
    + rewrite (filter_cons_True has_thread_id)
        by (unfold has_thread_id; rewrite E; eauto).
      rewrite <- IH'.
      rewrite <- (concat_groups_cons (fun k => filter (in_thread k) df) r k0 ks Hnd)
        by (apply (Hks k0); exists r; split; [left|exact E]).
      erewrite map_ext; [reflexivity|].
      intros k. cbn beta. rewrite filter_cons.
      destruct (decide (in_thread k r)) as [Hk|Hk];
        destruct (decide (k0 = k)) as [->|Hne]; try reflexivity.
      * unfold in_thread in Hk. congruence.
      * exfalso. apply Hk. exact E.
    + rewrite (filter_cons_False has_thread_id)
        by (unfold has_thread_id; rewrite E; intros [? ?]; discriminate).
      rewrite <- IH'.
      erewrite map_ext; [reflexivity|].
      intros k. cbn beta. rewrite filter_cons_False; [reflexivity|].
      unfold in_thread. rewrite E. discriminate.
Qed.

Lemma concat_thread_items df :
  concat (thread_items df).*2 ≡ₚ map post_of (filter has_thread_id df).
Proof.
  unfold thread_items, thread_posts.
  rewrite <- list_fmap_compose.
  transitivity (map post_of
                  (concat (map (fun k => filter (in_thread k) df)
                             (group_keys (sort_values df))))).
  - rewrite concat_map, map_map.
    induction (group_keys (sort_values df)) as [|k ks IH]; [reflexivity|].
    cbn. rewrite IH. apply Permutation_app_tail.
    apply Permutation_map, sort_rows_Permutation.
  - apply Permutation_map, concat_groups; [apply NoDup_group_keys|].
    intros k Hk. apply group_keys_present. exact Hk.
Qed.

Lemma total_posts_length_concat (m : gmap string (list post)) :
  total_posts m = length (concat (map_to_list m).*2).
Proof.
  unfold total_posts.
  induction ((map_to_list m).*2) as [|x l IH]; [reflexivity|].
  cbn. rewrite length_app, <- IH. reflexivity.
Qed.

Lemma filter_in_thread_has_thread_id k (df : list thread_row) :
  filter (in_thread k) (filter has_thread_id df) = filter (in_thread k) df.
Proof.
  rewrite list_filter_filter. apply list_filter_iff.
  intros r. unfold in_thread, has_thread_id. split; [tauto|].
  intros H. split; [exact H|]. rewrite H. eauto.
Qed.

(** *** Keys that two thread ids share *)

(** Storing under a key that is taken puts the posts in the place of the
    ones that were there. *)
Lemma total_posts_insert (m : gmap string (list post)) key posts :
  (total_posts (<[key := posts]> m) + length (default [] (m !! key))
   = total_posts m + length posts)%nat.
Proof.
  rewrite !total_posts_length_concat.
  destruct (m !! key) as [old|] eqn:E; cbn [from_option id].
  - rewrite <- insert_delete_eq.
    rewrite map_to_list_insert by apply lookup_delete_eq.
    rewrite <- (map_to_list_delete m key old E).
    cbn. rewrite !length_app. lia.
  - rewrite map_to_list_insert by exact E. cbn. rewrite length_app. lia.
Qed.

Lemma total_posts_list_to_map (l : list (string * list post)) :
  Forall (fun p => p.2 <> []) l ->
  (total_posts (list_to_map l) <= length (concat l.*2))%nat
  /\ (total_posts (list_to_map l) = length (concat l.*2) <-> NoDup l.*1).
Proof.
  induction 1 as [|[key posts] l Hne Hall [IHle IHeq]].
  - split; [reflexivity|]. split; [constructor|reflexivity].
  - cbn [list_to_map foldr fmap list_fmap fst snd concat] in *.
    change (foldr (fun p => <[p.1 := p.2]>) ∅ l)
      with (list_to_map l : gmap string (list post)) in *.
    rewrite length_app, NoDup_cons.
    pose proof (total_posts_insert (list_to_map l) key posts) as Hins.
    destruct (list_to_map l !! key) as [old|] eqn:E; cbn [from_option id] in Hins.
    + assert (Hold : old <> []).
      { apply elem_of_list_to_map_2 in E. rewrite Forall_forall in Hall.
        exact (Hall _ E). }
      assert (Hin : key ∈ l.*1).
      { apply elem_of_list_to_map_2 in E.
        apply list_elem_of_fmap. exists (key, old). split; [reflexivity|exact E]. }
      assert (0 < length old)%nat by (destruct old; [contradiction|cbn; lia]).
      split; [lia|]. split; [lia|]. intros [Hnot _]. contradiction.
    + apply not_elem_of_list_to_map in E. cbn [length] in Hins.
      split; [lia|]. rewrite <- IHeq.
      split; [intros; split; [exact E|lia]|intros [_ ?]; lia].
Qed.

Lemma NoDup_fmap_inj_on {A B} (f : A -> B) (l : list A) x y :
  NoDup (f <$> l) -> x ∈ l -> y ∈ l -> f x = f y -> x = y.
Proof.
  induction l as [|a l IH]; cbn; intros Hnd Hx Hy Hf; [inversion Hx|].
  apply NoDup_cons in Hnd as [Ha Hnd].
  apply elem_of_cons in Hx as [->|Hx]; apply elem_of_cons in Hy as [->|Hy].
  - reflexivity.
  - exfalso. apply Ha. rewrite Hf. apply list_elem_of_fmap. eauto.
  - exfalso. apply Ha. rewrite <- Hf. apply list_elem_of_fmap. eauto.
  - apply IH; assumption.
Qed.

Lemma NoDup_thread_items df :
  accepted df -> NoDup (thread_items df).*1 <-> distinct_keys df.
Proof.
  intros Hacc. unfold thread_items. rewrite <- list_fmap_compose. split.
  - intros Hnd id id' k Hid Hid' Hk Hk'.
    apply (NoDup_fmap_inj_on _ _ id id' Hnd).
    + apply group_keys_present. exact Hid.
    + apply group_keys_present. exact Hid'.
    + cbn. rewrite (key_text_OK id k Hk), (key_text_OK id' k Hk'). reflexivity.
  - intros Hdist. apply NoDup_fmap_2_strong; [|apply NoDup_group_keys].
    intros id id' Hid%group_keys_present Hid'%group_keys_present Heq.
    cbn in Heq.
    pose proof (proj1 Hacc id Hid) as Hok. pose proof (proj1 Hacc id' Hid') as Hok'.
    destruct (int_of_id id) as [k|e] eqn:E; [|discriminate].
    destruct (int_of_id id') as [k'|e'] eqn:E'; [|discriminate].
    rewrite (key_text_OK id k E), (key_text_OK id' k' E') in Heq.
    apply (inj pretty) in Heq. subst k'. exact (Hdist id id' k Hid Hid' E E').
Qed.

Lemma thread_items_nonempty df : Forall (fun p => p.2 <> []) (thread_items df).
Proof.
  unfold thread_items. apply Forall_fmap, Forall_forall.
  intros id Hid%group_keys_present. cbn.
  destruct Hid as (r & Hr & Hk). unfold thread_posts.
  intros Hnil. apply (f_equal length) in Hnil.
  rewrite length_map, sort_rows_Permutation in Hnil.
  assert (Hin : r ∈ filter (in_thread id) df)
    by (apply list_elem_of_filter; split; assumption).
  destruct (filter (in_thread id) df); [inversion Hin|discriminate].
Qed.

(** The posts of the dict are never more than the rows with a thread id,
    and as many exactly when no two thread ids share a key. *)
Lemma total_posts_convert_threads df d :
  convert_threads df = OK d ->
  (total_posts d <= length (filter has_thread_id df))%nat
  /\ (total_posts d = length (filter has_thread_id df) <-> distinct_keys df).
Proof.
  intros [Hacc ->]%convert_threads_OK.
  assert (Hne : Forall (fun p : string * list post => p.2 <> [])
                  (reverse (thread_items df))).
  { apply Forall_forall. intros p Hp. rewrite elem_of_reverse in Hp.
    pose proof (thread_items_nonempty df) as H. rewrite Forall_forall in H.
    exact (H p Hp). }
  destruct (total_posts_list_to_map _ Hne) as [Hle Heq].
  assert (Hlen : length (concat (reverse (thread_items df)).*2)
                 = length (filter has_thread_id df)).
  { rewrite fmap_reverse.
    assert (Hperm : concat (reverse (thread_items df).*2)
                    ≡ₚ concat (thread_items df).*2).
    { induction ((thread_items df).*2) as [|x l IH]; [reflexivity|].
      rewrite reverse_cons, concat_app. cbn. rewrite app_nil_r, IH.
      apply Permutation_app_comm. }
    rewrite Hperm, concat_thread_items. apply length_map. }
  rewrite Hlen in Hle, Heq. split; [exact Hle|].
  rewrite Heq, fmap_reverse, reverse_Permutation. apply NoDup_thread_items, Hacc.
Qed.

Lemma map_to_list_convert_threads df d :
  convert_threads df = OK d -> distinct_keys df ->
  map_to_list d ≡ₚ thread_items df.
Proof.
  intros [Hacc ->]%convert_threads_OK Hdist.
  rewrite map_to_list_to_map
    by (rewrite fmap_reverse, reverse_Permutation; apply NoDup_thread_items;
        assumption).
  apply reverse_Permutation.
Qed.

(** *** Rows of equal keys keep their order *)

Definition has_timestamp (ts : option T) (r : thread_row) : Prop :=
  col_timestamp r = ts.

Global Instance has_timestamp_dec ts r : Decision (has_timestamp ts r).
Proof. unfold has_timestamp. apply _. Defined.

(** A timestamp is not above itself. *)
Hypothesis ts_leb_refl : forall t, ts_leb t t = true.

Lemma timestamp_leb_same r x :
  col_timestamp r = col_timestamp x -> timestamp_leb r x = true.
Proof.
  unfold timestamp_leb. intros <-.
  destruct (col_timestamp r); cbn; [apply ts_leb_refl|reflexivity].
Qed.

Lemma filter_timestamp_insert ts r (l : list thread_row) :
  filter (has_timestamp ts) (insert_row timestamp_leb r l)
  = filter (has_timestamp ts) (r :: l).
Proof.
  induction l as [|x l IH]; cbn [insert_row]; [reflexivity|].
  destruct (timestamp_leb r x) eqn:E; [reflexivity|].
  rewrite (filter_cons _ x), IH, !(filter_cons _ r), (filter_cons _ x).
  destruct (decide (has_timestamp ts r)) as [Hr|Hr];
    destruct (decide (has_timestamp ts x)) as [Hx|Hx]; try reflexivity.
  unfold has_timestamp in Hr, Hx.
  rewrite timestamp_leb_same in E by congruence. discriminate.
Qed.

Lemma filter_timestamp_sort ts (l : list thread_row) :
  filter (has_timestamp ts) (sort_rows timestamp_leb l)
  = filter (has_timestamp ts) l.
Proof.
  induction l as [|r l IH]; [reflexivity|].
  cbn [sort_rows foldr]. rewrite filter_timestamp_insert.
  rewrite !(filter_cons _ r). fold (sort_rows timestamp_leb l).
  rewrite IH. reflexivity.
Qed.

(** C2, as amended: [convert_threads] returns as soon as [int] takes
    what the loops give it, and in the map it returns the sum of the
    lengths of the post sequences is never more than the number of input
    rows whose thread_id is not missing; it is that number exactly when no
    two thread ids of the table have the same [int] (as in every table
    whose thread ids are whole numbers).  Then the posts in the map, all
    groups together, are the posts of exactly those rows, each one once;
    and for a table in which, besides, no thread_id is missing this is the
    number of input rows, every row's post in one group. *)
Theorem convert_threads_total_posts (df : list thread_row) :
  (accepted df -> is_ok (convert_threads df) = true)
  /\ forall d, convert_threads df = OK d ->
       (total_posts d <= length (filter has_thread_id df))%nat
       /\ (total_posts d = length (filter has_thread_id df) <-> distinct_keys df)
       /\ (distinct_keys df ->
           (exists posts,
              mapM make_post (filter has_thread_id df) = OK posts
              /\ concat (map_to_list d).*2 ≡ₚ posts)
           /\ (Forall has_thread_id df ->
               total_posts d = length df
               /\ exists posts,
                    mapM make_post df = OK posts
                    /\ concat (map_to_list d).*2 ≡ₚ posts)).
Proof.
  split; [apply convert_threads_is_ok|]. intros d Hd.
  destruct (total_posts_convert_threads df d Hd) as [Hle Hiff].
  split; [exact Hle|]. split; [exact Hiff|]. intros Hdist.
  assert (Hacc : accepted df) by (apply convert_threads_OK in Hd; tauto).
  assert (Hposts : mapM make_post (filter has_thread_id df)
                   = OK (map post_of (filter has_thread_id df))).
  { apply (accepted_mapM df); [exact Hacc|].
    intros r [Hid Hr]%list_elem_of_filter. split; assumption. }
  assert (Hperm : concat (map_to_list d).*2
                  ≡ₚ map post_of (filter has_thread_id df)).
  { rewrite (map_to_list_convert_threads df d Hd Hdist).
    apply concat_thread_items. }
  split; [eexists; split; [exact Hposts|exact Hperm]|]. intros Hall.
  assert (Hlen : total_posts d = length (filter has_thread_id df))
    by (apply Hiff; exact Hdist).
  assert (Hf : filter has_thread_id df = df).
  { clear -Hall. induction Hall as [|r df Hr _ IH]; [reflexivity|].
    rewrite filter_cons_True by exact Hr. rewrite IH. reflexivity. }
  rewrite Hf in Hlen, Hperm, Hposts.
  split; [exact Hlen|]. eexists. split; [exact Hposts|exact Hperm].
Qed.

(** C3: the sort on (thread_id, timestamp) is stable, and the grouping
    keeps it so.  [convert_threads] returns as soon as [int] takes what
    the loops give it.  Every post sequence of the map it returns is made,
    post by post, from a sequence of rows that holds exactly the rows of
    one thread id, and in which the rows of any one timestamp stand in the
    order they have in the input table.  And the post sequence of a thread
    id is in the map, under the key of the thread id, for every thread id
    that is the last of those with its key (every thread id of the table,
    where no two have the same [int]). *)
Theorem convert_threads_stable (df : list thread_row) :
  (accepted df -> is_ok (convert_threads df) = true)
  /\ (forall d key posts,
        convert_threads df = OK d -> d !! key = Some posts ->
        exists id k rows,
          int_of_id id = OK k
          /\ key = pretty k
          /\ mapM make_post rows = OK posts
          /\ rows ≡ₚ filter (in_thread id) df
          /\ forall ts,
               filter (has_timestamp ts) rows
               = filter (has_timestamp ts) (filter (in_thread id) df))
  /\ forall d id k,
       convert_threads df = OK d -> last_of_key df id k ->
       exists rows posts,
         d !! pretty k = Some posts
         /\ mapM make_post rows = OK posts
         /\ rows ≡ₚ filter (in_thread id) df
         /\ forall ts,
              filter (has_timestamp ts) rows
              = filter (has_timestamp ts) (filter (in_thread id) df).
Proof.
  split; [apply convert_threads_is_ok|]. split.
  - intros d key posts Hd H.
    assert (Hacc : accepted df) by (apply convert_threads_OK in Hd; tauto).
    destruct (convert_threads_lookup df d key posts Hd H)
      as (id & k & _ & Hk & -> & ->).
    exists id, k, (sort_rows timestamp_leb (filter (in_thread id) df)).
    split; [exact Hk|]. split; [reflexivity|].
    split; [apply (accepted_mapM df _ Hacc), thread_rows_sub|].
    split; [apply sort_rows_Permutation|].
    intros ts. apply filter_timestamp_sort.
  - intros d id k Hd Hlast.
    assert (Hacc : accepted df) by (apply convert_threads_OK in Hd; tauto).
    exists (sort_rows timestamp_leb (filter (in_thread id) df)),
      (thread_posts id df).
    split; [|split; [|split]].
    + exact (convert_threads_lookup_last df d id k Hd Hlast).
    + apply (accepted_mapM df _ Hacc), thread_rows_sub.
    + apply sort_rows_Permutation.
    + intros ts. apply filter_timestamp_sort.
Qed.

(** C9: a row whose thread_id is missing is left out of the returned map
    without a trace: [convert_threads] does on the table what it does on
    the table without these rows, every key of the map it returns is the
    text of the [int] of a thread id some row has, and every post sequence
    is made from rows of that thread id alone.  The function has no other
    output: no error, no warning. *)
Theorem convert_threads_drops_missing_thread_id (df : list thread_row) :
  convert_threads df = convert_threads (filter has_thread_id df)
  /\ forall d key posts,
       convert_threads df = OK d -> d !! key = Some posts ->
       exists id k rows,
         int_of_id id = OK k
         /\ key = pretty k
         /\ mapM make_post rows = OK posts
         /\ rows ≡ₚ filter (in_thread id) df
         /\ Forall has_thread_id rows.
Proof.
  split.
  - unfold convert_threads. rewrite !groupby_sort_values. f_equal.
    rewrite (group_keys_ext (sort_values (filter has_thread_id df))
               (sort_values df)).
    + apply map_ext. intros k. rewrite filter_in_thread_has_thread_id.
      reflexivity.
    + intros k. rewrite !present_sort_values. apply present_filter_has_thread_id.
  - intros d key posts Hd H.
    assert (Hacc : accepted df) by (apply convert_threads_OK in Hd; tauto).
    destruct (convert_threads_lookup df d key posts Hd H)
      as (id & k & _ & Hk & -> & ->).
    exists id, k, (sort_rows timestamp_leb (filter (in_thread id) df)).
    split; [exact Hk|]. split; [reflexivity|].
    split; [apply (accepted_mapM df _ Hacc), thread_rows_sub|].
    split; [apply sort_rows_Permutation|].
    apply Forall_forall. intros r Hr.
    exact (proj2 (thread_rows_sub df id r Hr)).
Qed.

End Grouper.

Arguments col_thread_id {K N T} _.
Arguments col_timestamp {K N T} _.
Arguments make_post {K N} _ {T} _ _.
Arguments post_of {K N} _ {T} _ _.
Arguments sort_values {K _} _ {N T} _ _.
Arguments groupby {K _} _ {N T} _.
Arguments convert_threads {K _} _ _ {N} _ {T} _ _ _.
Arguments in_thread {K N T} _ _.
Arguments has_thread_id {K N T} _.
Arguments has_timestamp {K N T} _ _.
Arguments present {K N T} _ _.
Arguments distinct_keys {K} _ {N T} _.
Arguments last_of_key {K} _ _ {N T} _ _ _.
Arguments accepted {K} _ {N} _ {T} _ _.
Arguments thread_posts {K _ N} _ {T} _ _ _ _.

End Threads.

(** ** Validation *)

Module Validate.

(** The values a Python set can hold. *)
Definition hashable (v : pyval) : bool :=
  match v with
  | PList _ | PDict _ => false
  | _ => true
  end.

Definition num_value (v : pyval) : option Q :=
  match v with
  | PBool b => Some (if b then 1%Q else 0%Q)
  | PInt z => Some (inject_Z z)
  | PFloat q => Some q
  | _ => None
  end.

(** [a == b] on hashable values: numbers compare by value across [bool],
    [int] and [float], and a NaN is equal to nothing. *)
Definition py_eqb (a b : pyval) : bool :=
  match a, b with
  | PNone, PNone => true
  | PStr s, PStr t => String.eqb s t
  | _, _ =>
      match num_value a, num_value b with
      | Some x, Some y => Qeq_bool x y
      | _, _ => false
      end
  end.

(** [set(l)]: one element of every class of equal values. *)
Fixpoint py_set (l : list pyval) : list pyval :=
  match l with
  | [] => []
  | x :: l' => if existsb (py_eqb x) l' then py_set l' else x :: py_set l'
  end.

(** [a - b] on sets. *)
Definition set_difference (a b : list pyval) : list pyval :=
  List.filter (fun x => negb (existsb (py_eqb x) b)) a.

(** The truth value of a Python value. *)
Definition truthy (v : pyval) : bool :=
  match v with
  | PNone => false
  | PNaN => true
  | PBool b => b
  | PInt z => negb (z =? 0)
  | PFloat q => negb (Qeq_bool q 0)
  | PStr s => negb (String.eqb s EmptyString)
  | PList l => match l with [] => false | _ => true end
  | PDict d => match d with [] => false | _ => true end
  end.

Definition annotated_count_mismatch (n m : nat) : string :=
  "Annotated count mismatch: " +:+ pretty n +:+ " vs " +:+ pretty m.

Definition threads_count_mismatch (n m : nat) : string :=
  "Threads post count mismatch: " +:+ pretty n +:+ " vs " +:+ pretty m.

Definition missing_warning (n : nat) : string :=
  "Thread IDs in annotated but not in threads: " +:+ pretty n.

Definition empty_warning (n : nat) : string :=
  "Records with empty vaccine_types: " +:+ pretty n.

Section Validator.

Variables K N T : Type.

(** [int(k)] on a key of the thread dict. *)
Variable int_of_str : string -> result Z.

(** [r['thread_id']] as an element of a set. *)
Definition thread_id_of (r : record) : result pyval :=
  v ← Annotated.getitem r "thread_id";
  if hashable v then OK v
  else Raise (Exn TypeError "unhashable type").

(** [not r['vaccine_types']] *)
Definition vaccine_types_empty (r : record) : result bool :=
  v ← Annotated.getitem r "vaccine_types";
  OK (negb (truthy v)).

Definition count_true (l : list bool) : nat :=
  length (List.filter (fun b => b) l).

(** The thread ids the annotated records name and the thread dict lacks:
    [set(r['thread_id'] for r in annotated_records)
     - set(int(k) for k in threads_dict.keys())]. *)
Definition missing_in_threads (annotated_records : list record)
    (threads_dict : gmap string (list post)) : result (list pyval) :=
  annotated_thread_ids ← py_set <$> mapM thread_id_of annotated_records;
  threads_thread_ids ← mapM int_of_str (map_to_list threads_dict).*1;
  OK (set_difference annotated_thread_ids (PInt <$> threads_thread_ids)).

(** [sum(1 for r in annotated_records if not r['vaccine_types'])] *)
Definition empty_vaccine_types (annotated_records : list record) : result nat :=
  count_true <$> mapM vaccine_types_empty annotated_records.

(** Validate converted data. *)
Definition validate_data (annotated_records : list record)
    (threads_dict : gmap string (list post))
    (annotated_df : dataframe) (threads_df : list (Threads.thread_row K N T))
    : result (list string * list string) :=
  let errors := [] in
  let warnings := [] in

  let errors :=
    if decide (length annotated_records <> length annotated_df)
    then errors ++ [annotated_count_mismatch (length annotated_records)
                      (length annotated_df)]
    else errors in

  let total_posts := Threads.total_posts threads_dict in
  let errors :=
    if decide (total_posts <> length threads_df)
    then errors ++ [threads_count_mismatch total_posts (length threads_df)]
    else errors in

  missing_in_threads ← missing_in_threads annotated_records threads_dict;
  let warnings :=
    match missing_in_threads with
    | [] => warnings
    | _ => warnings ++ [missing_warning (length missing_in_threads)]
    end in

  empty_vaccine_types ← empty_vaccine_types annotated_records;
  let warnings :=
    if decide (0 < empty_vaccine_types)%nat
    then warnings ++ [empty_warning empty_vaccine_types]
    else warnings in

  OK (errors, warnings).

(** The hard errors: the two count checks and nothing else. *)
Definition count_errors (annotated_records : list record)
    (threads_dict : gmap string (list post))
    (annotated_df : dataframe) (threads_df : list (Threads.thread_row K N T))
    : list string :=
  (if decide (length annotated_records <> length annotated_df)
   then [annotated_count_mismatch (length annotated_records)
           (length annotated_df)]
   else [])
  ++ (if decide (Threads.total_posts threads_dict <> length threads_df)
      then [threads_count_mismatch (Threads.total_posts threads_dict)
              (length threads_df)]
      else []).

Lemma validate_data_inv annotated_records threads_dict annotated_df threads_df
    errors warnings :
  validate_data annotated_records threads_dict annotated_df threads_df
  = OK (errors, warnings) ->
  errors = count_errors annotated_records threads_dict annotated_df threads_df
  /\ exists missing empty,
       missing_in_threads annotated_records threads_dict = OK missing
       /\ empty_vaccine_types annotated_records = OK empty
       /\ warnings
          = (match missing with
             | [] => []
             | _ => [missing_warning (length missing)]
             end)
            ++ (if decide (0 < empty)%nat then [empty_warning empty] else []).
Proof.
  unfold validate_data, count_errors.
  destruct (missing_in_threads annotated_records threads_dict)
    as [missing|e]; cbn; [|discriminate].
  destruct (empty_vaccine_types annotated_records) as [empty|e]; cbn;
    [|discriminate].
  intros H. injection H as <- <-. split.
  - destruct (decide (length annotated_records <> length annotated_df));
      destruct (decide (Threads.total_posts threads_dict <> length threads_df));
      reflexivity.
  - exists missing, empty. repeat split.
    destruct missing; destruct (decide (0 < empty)%nat); reflexivity.
Qed.

Lemma count_errors_nil annotated_records threads_dict annotated_df threads_df :
  count_errors annotated_records threads_dict annotated_df threads_df = []
  <-> length annotated_records = length annotated_df
      /\ Threads.total_posts threads_dict = length threads_df.
Proof.
  unfold count_errors.
  destruct (decide (length annotated_records <> length annotated_df));
    destruct (decide (Threads.total_posts threads_dict <> length threads_df));
    cbn; split; try discriminate; try tauto; try lia.
Qed.

End Validator.

Arguments validate_data {K N T} _ _ _ _ _.
Arguments count_errors {K N T} _ _ _ _.

End Validate.

(** ** Main Function *)

Module Pipeline.

(** Output files *)
Definition ANNOTATED_JSON : string := "annotated.json".
Definition THREADS_ENCRYPTED : string := "threads.encrypted".
Definition ENCRYPTION_CONFIG : string := "encryption_config.json".

Section Main.

Variable K : Type.
Context {K_eq_dec : EqDecision K}.
Variable id_leb : K -> K -> bool.
Variable int_of_id : K -> result Z.

Variable N : Type.
Variable int_of_num : N -> result Z.

Variable T : Type.
Context {T_eq_dec : EqDecision T}.
Variable ts_leb : T -> T -> bool.
Variable ts_str : T -> string.

Variable json_loads : string -> result pyval.
Variable empty_array_truth : option bool.
Variable nested_elements : list pyval -> list pyval.
Variable int_of_str : string -> result Z.

Variable aes_encrypt_block : list byte -> list byte -> list byte.
Variable pbkdf2 : list byte -> list byte -> Z -> Z -> list byte.
Variable rng : Type.
Variable get_random_bytes : nat -> rng -> list byte * rng.

(** [json.dump(annotated_records, f, ensure_ascii=False, indent=2)],
    [json.dumps(threads_dict, ensure_ascii=False)] and the [json.dump] of
    the config dict, by the text they write. *)
Variable json_dump_records : list record -> string.
Variable json_dumps_threads : gmap string (list post) -> Unicode.str.
Variable json_dump_config : string -> string -> Z -> Z -> string -> string.

(** What a run reads and writes: the two input files, when they exist, by
    the tables [pd.read_csv] loads from them; whether the output
    directory exists and the text of the files in it; the random source. *)
Record world := {
  annotated_csv : option dataframe;
  threads_csv : option (list (Threads.thread_row K N T));
  output_dir : bool;
  files : gmap string string;
  random : rng
}.

(** [OUTPUT_DIR.mkdir(parents=True, exist_ok=True)] *)
Definition mkdir (w : world) : world :=
  {| annotated_csv := annotated_csv w; threads_csv := threads_csv w;
     output_dir := true; files := files w; random := random w |}.

(** [with open(name, 'w') as f: f.write(text)] *)
Definition write_file (name text : string) (w : world) : world :=
  {| annotated_csv := annotated_csv w; threads_csv := threads_csv w;
     output_dir := output_dir w; files := <[name := text]> (files w);
     random := random w |}.

Definition set_random (g : rng) (w : world) : world :=
  {| annotated_csv := annotated_csv w; threads_csv := threads_csv w;
     output_dir := output_dir w; files := files w; random := g |}.

(** The run, without its console output: the value [main] returns (or
    the exception it dies of) and the world it leaves. *)
Definition main (password : Unicode.str) (w : world) : result bool * world :=
  if Z.of_nat (length password) <? 8 then (OK false, w)
  else
    (* Check input files, load CSVs *)
    match annotated_csv w, threads_csv w with
    | None, _ => (OK false, w)
    | Some _, None => (OK false, w)
    | Some annotated_df, Some threads_df =>
        (* Convert *)
        let '(annotated_records, parse_errors) :=
          Annotated.convert_annotated json_loads empty_array_truth
            nested_elements annotated_df in
        match Threads.convert_threads id_leb int_of_id int_of_num ts_leb ts_str
                threads_df with
        | Raise e => (Raise e, w)
        | OK threads_dict =>
        (* Validate *)
        match Validate.validate_data int_of_str annotated_records threads_dict
                annotated_df threads_df with
        | Raise e => (Raise e, w)
        | OK (errors, warnings) =>
            match errors with
            | _ :: _ => (OK false, w)
            | [] =>
                (* Ensure output directory exists *)
                let w := mkdir w in
                (* Save annotated JSON (not encrypted) *)
                let w := write_file ANNOTATED_JSON
                           (json_dump_records annotated_records) w in
                (* Encrypt and save threads *)
                let threads_json_str := json_dumps_threads threads_dict in
                (* original_size: [threads_json_str.encode('utf-8')] *)
                match Crypto.encode_utf8 threads_json_str with
                | Raise e => (Raise e, w)
                | OK _ =>
                let '(r, g) :=
                  Crypto.encrypt_data aes_encrypt_block pbkdf2
                    get_random_bytes threads_json_str password (random w) in
                let w := set_random g w in
                match r with
                | Raise e => (Raise e, w)
                | OK (encrypted_data, salt, iv) =>
                    let w := write_file THREADS_ENCRYPTED encrypted_data w in
                    (* Save encryption config *)
                    let config :=
                      json_dump_config salt iv 100000 256 "AES-CBC" in
                    let w := write_file ENCRYPTION_CONFIG config w in
                    (OK true, w)
                end
                end
            end
        end
        end
    end.

(** C7: [validate_data] puts into its error list the two count checks and
    nothing else: a record count that differs from the row count of the
    annotated table, a total post count that differs from the row count
    of the thread table.  Thread ids that the annotated records name and
    the thread dict lacks, and records with an empty vaccine_types, go
    into the warning list only.  And when [validate_data] returns a
    non-empty error list on the converted tables, [main] returns [False]
    with the world as it found it: no directory made, no file written. *)
Theorem validation_gate :
  (forall annotated_records threads_dict annotated_df
          (threads_df : list (Threads.thread_row K N T)) errors warnings,
     Validate.validate_data int_of_str annotated_records threads_dict
       annotated_df threads_df = OK (errors, warnings) ->
     errors = Validate.count_errors annotated_records threads_dict
                annotated_df threads_df
     /\ (errors <> [] <->
         length annotated_records <> length annotated_df
         \/ Threads.total_posts threads_dict <> length threads_df)
     /\ exists missing empty,
          Validate.missing_in_threads int_of_str annotated_records threads_dict
          = OK missing
          /\ Validate.empty_vaccine_types annotated_records = OK empty
          /\ warnings
             = (match missing with
                | [] => []
                | _ => [Validate.missing_warning (length missing)]
                end)
               ++ (if decide (0 < empty)%nat
                   then [Validate.empty_warning empty] else []))
  /\ (forall password w annotated_df threads_df threads_dict errors warnings,
        annotated_csv w = Some annotated_df ->
        threads_csv w = Some threads_df ->
        Threads.convert_threads id_leb int_of_id int_of_num ts_leb ts_str threads_df
        = OK threads_dict ->
        Validate.validate_data int_of_str
          (Annotated.convert_annotated json_loads empty_array_truth
             nested_elements annotated_df).1
          threads_dict annotated_df threads_df = OK (errors, warnings) ->
        errors <> [] ->
        main password w = (OK false, w)).
Proof.
  split.
  - intros records threads adf tdf errors warnings Hv.
    destruct (Validate.validate_data_inv _ _ _ _ _ _ _ _ _ _ Hv) as [He Hw].
    split; [exact He|]. split; [|exact Hw].
    rewrite He, Validate.count_errors_nil. lia.
  - intros password w adf tdf threads errors warnings Ha Ht Hd Hv Herr.
    unfold main. rewrite Ha, Ht, Hd.
    destruct (Z.of_nat (length password) <? 8); [reflexivity|].
    destruct (Annotated.convert_annotated json_loads empty_array_truth
                nested_elements adf) as [records parse_errors].
    cbn [fst] in Hv. rewrite Hv.
    destruct errors; [contradiction|reflexivity].
Qed.

End Main.

Arguments main {K _} _ _ {N} _ {T} _ _ _ _ _ _ _ _ {rng} _ _ _ _ _ _.

End Pipeline.

(** ** The library contracts can be met

    An instance of every parameter: each meets the contract its section
    assumes, and each computes, so the statements above can be run on
    sample tables. *)

Module Instances.

(** *** A cipher, a key derivation and a random source *)

(** A block "cipher" that xors the block with the head of the key: its own
    inverse, and 16 bytes in, 16 bytes out for every AES key length. *)
Definition xor_block (key block : list byte) : list byte :=
  Bytes.xor_bytes block (firstn 16 key).

(** A key derivation that folds password and salt into one byte and
    repeats it to the length asked for. *)
Definition fold_kdf (pw salt : list byte) (dkLen count : Z) : list byte :=
  repeat (foldr Bytes.xor (Bytes.of_Z count) (pw ++ salt)) (Z.to_nat dkLen).

(** A counter in place of the random source. *)
Definition counter_bytes (n : nat) (g : nat) : list byte * nat :=
  (map (fun i => Bytes.of_Z (Z.of_nat (g + i) * 37 + 11)) (seq 0 n), (g + n)%nat).

Lemma aes_key_ok_length key :
  Crypto.aes_key_ok key = true -> (16 <= length key)%nat.
Proof.
  unfold Crypto.aes_key_ok, Crypto.len.
  destruct (Z.eqb_spec (Z.of_nat (length key)) 16);
    destruct (Z.eqb_spec (Z.of_nat (length key)) 24);
    destruct (Z.eqb_spec (Z.of_nat (length key)) 32); cbn; try discriminate; lia.
Qed.

Lemma xor_block_length key block :
  Crypto.aes_key_ok key = true -> length block = 16%nat ->
  length (xor_block key block) = 16%nat.
Proof.
  intros Hk%aes_key_ok_length Hb. unfold xor_block.
  rewrite Bytes.length_xor_bytes, length_take. lia.
Qed.

Lemma xor_block_inverse key block :
  Crypto.aes_key_ok key = true -> length block = 16%nat ->
  xor_block key (xor_block key block) = block.
Proof.
  intros Hk%aes_key_ok_length Hb. unfold xor_block.
  apply Bytes.xor_bytes_cancel. rewrite length_take. lia.
Qed.

Lemma fold_kdf_length pw salt dkLen count :
  0 <= dkLen -> Crypto.len (fold_kdf pw salt dkLen count) = dkLen.
Proof.
  intros H. unfold fold_kdf, Crypto.len. rewrite repeat_length. lia.
Qed.

Lemma counter_bytes_length n g : length (fst (counter_bytes n g)) = n.
Proof. unfold counter_bytes. cbn. rewrite length_map, length_seq. reflexivity. Qed.

(** *** A JSON decoder

    It reads the documents made of arrays, strings without escapes,
    integers and the three literals, and takes anything else for a decode
    error. *)

Definition is_ws (c : ascii) : bool :=
  Ascii.eqb c " " || Ascii.eqb c "009" || Ascii.eqb c "010" || Ascii.eqb c "013".

Fixpoint skip_ws (cs : list ascii) : list ascii :=
  match cs with
  | c :: cs' => if is_ws c then skip_ws cs' else cs
  | [] => []
  end.

Definition digit_of (c : ascii) : option Z :=
  let n := Z.of_N (N_of_ascii c) in
  if (48 <=? n) && (n <=? 57) then Some (n - 48) else None.

Fixpoint read_digits (acc : Z) (cs : list ascii) : Z * list ascii :=
  match cs with
  | c :: cs' =>
      match digit_of c with
      | Some d => read_digits (acc * 10 + d) cs'
      | None => (acc, cs)
      end
  | [] => (acc, [])
  end.

Definition read_nat (cs : list ascii) : option (Z * list ascii) :=
  match cs with
  | c :: _ =>
      match digit_of c with
      | Some _ => Some (read_digits 0 cs)
      | None => None
      end
  | [] => None
  end.

Definition read_int (cs : list ascii) : option (Z * list ascii) :=
  match cs with
  | c :: cs' =>
      if Ascii.eqb c "-" then
        match read_nat cs' with
        | Some (n, rest) => Some (- n, rest)
        | None => None
        end
      else read_nat cs
  | [] => None
  end.

Fixpoint read_string (acc : list ascii) (cs : list ascii)
    : option (string * list ascii) :=
  match cs with
  | c :: cs' =>
      if Ascii.eqb c "034" then Some (string_of_list_ascii (rev acc), cs')
      else if Ascii.eqb c "\" then None
      else read_string (c :: acc) cs'
  | [] => None
  end.

Fixpoint strip_prefix (p cs : list ascii) : option (list ascii) :=
  match p, cs with
  | [], _ => Some cs
  | a :: p', c :: cs' => if Ascii.eqb a c then strip_prefix p' cs' else None
  | _ :: _, [] => None
  end.

Definition read_literal (cs : list ascii) : option (pyval * list ascii) :=
  match strip_prefix (list_ascii_of_string "null") cs with
  | Some rest => Some (PNone, rest)
  | None =>
      match strip_prefix (list_ascii_of_string "true") cs with
      | Some rest => Some (PBool true, rest)
      | None =>
          match strip_prefix (list_ascii_of_string "false") cs with
          | Some rest => Some (PBool false, rest)
          | None => None
          end
      end
  end.

Fixpoint read_value (fuel : nat) (cs : list ascii) : option (pyval * list ascii) :=
  match fuel with
  | O => None
  | S fuel' =>
      match skip_ws cs with
      | c :: rest =>
          if Ascii.eqb c "[" then
            match skip_ws rest with
            | c' :: rest' =>
                if Ascii.eqb c' "]" then Some (PList [], rest')
                else read_elements fuel' [] rest
            | [] => None
            end
          else if Ascii.eqb c "034" then
            match read_string [] rest with
            | Some (s, rest') => Some (PStr s, rest')
            | None => None
            end
          else
            match read_int (c :: rest) with
            | Some (z, rest') => Some (PInt z, rest')
            | None => read_literal (c :: rest)
            end
      | [] => None
      end
  end
with read_elements (fuel : nat) (acc : list pyval) (cs : list ascii)
    : option (pyval * list ascii) :=
  match fuel with
  | O => None
  | S fuel' =>
      match read_value fuel' cs with
      | Some (v, rest) =>
          match skip_ws rest with
          | c :: rest' =>
              if Ascii.eqb c "," then read_elements fuel' (v :: acc) rest'
              else if Ascii.eqb c "]" then Some (PList (rev (v :: acc)), rest')
              else None
          | [] => None
          end
      | None => None
      end
  end.

Definition decode_error : exn := Exn JSONDecodeError "Expecting value".

Definition json_loads (s : string) : result pyval :=
  let cs := list_ascii_of_string s in
  match read_value (S (length cs)) cs with
  | Some (v, rest) =>
      match skip_ws rest with
      | [] => OK v
      | _ => Raise (Exn JSONDecodeError "Extra data")
      end
  | None => Raise decode_error
  end.

(** *** NumPy up to 2.1, and a reading of decimal integers *)

Definition empty_array_truth : option bool := Some false.

(** A list of lists taken for an array of one dimension, its elements the
    inner lists. *)
Definition nested_elements (l : list pyval) : list pyval := l.

Definition int_of_str (s : string) : result Z :=
  match read_int (list_ascii_of_string s) with
  | Some (z, []) => OK z
  | _ => Raise (Exn ValueError "invalid literal for int() with base 10")
  end.

(** *** A numeric column of thread ids

    The values of an int64 or float64 column that are not NaN: a rational
    (every float is one), or an infinity. *)

Inductive number :=
| Finite (q : Qc)
| Infinity (negative : bool).

Global Instance number_eq_dec : EqDecision number.
Proof. solve_decision. Defined.

(** [a <= b] *)
Definition number_leb (a b : number) : bool :=
  match a, b with
  | Infinity true, _ => true
  | _, Infinity false => true
  | Finite x, Finite y => Qle_bool x y
  | _, _ => false
  end.

(** [int(x)]: the fraction is cut off, towards zero; an infinity has no
    integer. *)
Definition int_of_number (x : number) : result Z :=
  match x with
  | Finite q => OK (Z.quot (Qnum q) (Z.pos (Qden q)))
  | Infinity _ =>
      Raise (Exn OverflowError "cannot convert float infinity to integer")
  end.

(** The whole number [z], and the fraction [n / d]. *)
Definition whole (z : Z) : number := Finite (Qc_of_Z z).
Definition fraction (n : Z) (d : positive) : number := Finite (Q2Qc (n # d)).

Lemma number_leb_total a b : number_leb a b = true \/ number_leb b a = true.
Proof.
  destruct a as [x|[|]], b as [y|[|]]; cbn; auto.
  rewrite !Qle_bool_iff. destruct (Qlt_le_dec x y) as [H|H]; [|right; exact H].
  left. apply Qlt_le_weak. exact H.
Qed.

Lemma number_leb_trans a b c :
  number_leb a b = true -> number_leb b c = true -> number_leb a c = true.
Proof.
  destruct a as [x|[|]], b as [y|[|]], c as [z|[|]]; cbn;
    try discriminate; try reflexivity.
  rewrite !Qle_bool_iff. apply Qle_trans.
Qed.

Lemma number_leb_antisym a b :
  number_leb a b = true -> number_leb b a = true -> a = b.
Proof.
  destruct a as [x|[|]], b as [y|[|]]; cbn; try discriminate; try reflexivity.
  rewrite !Qle_bool_iff. intros H1 H2. f_equal.
  apply Qc_is_canon, Qle_antisym; assumption.
Qed.

Lemma int_of_number_whole z : int_of_number (whole z) = OK z.
Proof. cbn. rewrite Z.quot_1_r. reflexivity. Qed.

Lemma whole_inj z z' : whole z = whole z' -> z = z'.
Proof.
  intros H. apply (f_equal int_of_number) in H.
  rewrite !int_of_number_whole in H. congruence.
Qed.

(** *** Writers that keep the sizes only *)

Definition json_dump_records (records : list record) : string :=
  "[" +:+ pretty (length records) +:+ " records]".

Definition json_dumps_threads (threads_dict : gmap string (list post)) : Unicode.str :=
  Unicode.of_string ("{" +:+ pretty (size threads_dict) +:+ " threads}").

Definition json_dump_config (salt iv : string) (iterations keySize : Z)
    (algorithm : string) : string :=
  "{salt: " +:+ salt +:+ ", iv: " +:+ iv +:+ ", iterations: " +:+ pretty iterations
  +:+ ", keySize: " +:+ pretty keySize +:+ ", algorithm: " +:+ algorithm +:+ "}".

End Instances.

(** ** Sample tables *)

Module Samples.

Import Instances.

Definition quoted (s : string) : string :=
  String "034" EmptyString +:+ s +:+ String "034" EmptyString.

Definition annotated_row (id thread_id : Z) (vaccine_types : pyval) : record :=
  {[ "id"%string := PInt id; "thread_id"%string := PInt thread_id;
     "vaccine_types"%string := vaccine_types ]}.

(** A decodable cell, a missing cell, a cell that is not JSON, and a cell
    that already holds a list. *)
Definition row_pfizer : record :=
  annotated_row 1 10 (PStr ("[" +:+ quoted "pfizer" +:+ "]")).
Definition row_missing : record := annotated_row 2 11 PNaN.
Definition row_not_json : record := annotated_row 3 12 (PStr "not json").
Definition row_list : record :=
  annotated_row 4 10 (PList [PStr "pfizer"; PStr "moderna"]).

Definition annotated_table : dataframe :=
  [(0, row_pfizer); (1, row_missing); (2, row_not_json); (3, row_list)].

Definition thread_row (thread_id : option number) (post_id : Z)
    (timestamp : option Z) (content : string)
    : Threads.thread_row number number Z :=
  {| Threads.col_thread_id := thread_id;
     Threads.col_post_id := Some (whole post_id);
     Threads.col_author_role := Some "patient"%string;
     Threads.col_timestamp := timestamp;
     Threads.col_content := Some content;
     Threads.col_sentiment := None;
     Threads.col_has_vaccine_keyword := None;
     Threads.col_replies_to_post_number := None |}.

(** Thread 10 has two posts at time 7 and two at time 3. *)
Definition thread_table : list (Threads.thread_row number number Z) :=
  [thread_row (Some (whole 11)) 1 (Some 5) "a";
   thread_row (Some (whole 10)) 2 (Some 7) "b";
   thread_row (Some (whole 10)) 3 (Some 3) "c";
   thread_row (Some (whole 10)) 4 (Some 7) "d";
   thread_row (Some (whole 10)) 5 (Some 3) "e"].

(** The post such a row gives. *)
Definition patient_post (id : Z) (time content : string) : post :=
  {| post_id := Some id;
     author_role := Some "patient"%string;
     timestamp := Some time;
     content := content;
     sentiment := "neutral";
     has_vaccine_keyword := false;
     replies_to_post_number := None |}.

(** A row without thread id. *)
Definition orphan : Threads.thread_row number number Z :=
  thread_row None 6 (Some 1) "f".

Definition orphan_table : list (Threads.thread_row number number Z) :=
  [thread_row (Some (whole 10)) 2 (Some 7) "b"; orphan].

(** The thread ids 10.2 and 10.7: two groups, one key. *)
Definition fraction_table : list (Threads.thread_row number number Z) :=
  [thread_row (Some (fraction 102 10)) 1 (Some 1) "a";
   thread_row (Some (fraction 107 10)) 2 (Some 2) "b"].

(** A thread id that is an infinity. *)
Definition infinity_table : list (Threads.thread_row number number Z) :=
  [thread_row (Some (whole 10)) 1 (Some 1) "a";
   thread_row (Some (Infinity false)) 2 (Some 2) "b"].

(** The plaintext "h", e-acute, the euro sign and an emoji: one, two, three
    and four bytes of UTF-8. *)
Definition plaintext : Unicode.str := [0x68; 0xE9; 0x20AC; 0x1F600].

Definition password : Unicode.str := Unicode.of_string "password".

(** Eight characters, none of them in Latin-1. *)
Definition cjk_password : Unicode.str :=
  [0x5BC6; 0x7801; 0x5BC6; 0x7801; 0x5BC6; 0x7801; 0x5BC6; 0x7801].

Definition start_world (threads : list (Threads.thread_row number number Z))
    : Pipeline.world number number Z nat :=
  {| Pipeline.annotated_csv := Some annotated_table;
     Pipeline.threads_csv := Some threads;
     Pipeline.output_dir := false;
     Pipeline.files := ∅;
     Pipeline.random := 0%nat |}.

(** The cases of a row of a sample table. *)
Ltac each_row H :=
  repeat (apply elem_of_cons in H as [->|H]); [..|inversion H].

End Samples.


(** ** The statements on the sample tables *)

Module Checks.

Import Instances Samples.

Local Abbreviation convert_threads :=
  (Threads.convert_threads number_leb int_of_number int_of_number Z.leb pretty).
Local Abbreviation make_post := (Threads.make_post int_of_number pretty).
Local Abbreviation convert_annotated :=
  (Annotated.convert_annotated json_loads empty_array_truth nested_elements).
Local Abbreviation parse_vaccine_types :=
  (Annotated.parse_vaccine_types json_loads empty_array_truth nested_elements).

(** *** Encryption *)

Lemma plaintext_scalar : Forall Unicode.scalar_value plaintext.
Proof. unfold plaintext, Unicode.scalar_value. repeat constructor; lia. Qed.

Lemma password_latin1 : Unicode.latin1 password.
Proof. unfold Unicode.latin1, password. cbn. repeat constructor; lia. Qed.

(** The round trip on a plaintext with characters of one to four bytes. *)
Lemma encrypt_data_roundtrip_witness :
  Forall Unicode.scalar_value plaintext
  /\ Unicode.latin1 password
  /\ exists C S V g',
       Crypto.encrypt_data xor_block fold_kdf counter_bytes plaintext password 0%nat
       = (OK (C, S, V), g')
       /\ Crypto.decrypt_data xor_block fold_kdf C S V password = Some plaintext.
Proof.
  split; [exact plaintext_scalar|]. split; [exact password_latin1|].
  exact (Crypto.encrypt_data_roundtrip xor_block xor_block fold_kdf nat
           counter_bytes xor_block_length xor_block_inverse fold_kdf_length
           counter_bytes_length plaintext password 0%nat
           plaintext_scalar password_latin1).
Defined.

(** C1 fails as stated: with the empty plaintext and a password of eight
    characters outside Latin-1, [encrypt_data] returns nothing; the key
    derivation raises. *)
Lemma encrypt_data_rejects_password :
  fst (Crypto.encrypt_data xor_block fold_kdf counter_bytes [] cjk_password 0%nat)
  = Raise (Exn UnicodeEncodeError "'latin-1' codec can't encode character")
  /\ ~ exists C S V g',
         Crypto.encrypt_data xor_block fold_kdf counter_bytes [] cjk_password 0%nat
         = (OK (C, S, V), g').
Proof.
  assert (H : fst (Crypto.encrypt_data xor_block fold_kdf counter_bytes []
                     cjk_password 0%nat)
              = Raise (Exn UnicodeEncodeError
                         "'latin-1' codec can't encode character")).
  { apply Crypto.encrypt_data_password_not_latin1. reflexivity. }
  split; [exact H|].
  intros (C & S & V & g' & E). rewrite E in H. discriminate.
Qed.

(** Two runs whose generators are in different states and draw the same
    salt and IV. *)
Lemma encrypt_data_deterministic_witness :
  Crypto.encrypt_data xor_block fold_kdf counter_bytes plaintext password 0%nat
  = (OK ("nOyjh8IXZm60h2RbvpXILw==", "CzBVep/E6Q4zWH2ix+wRNg==",
         "W4Clyu8UOV6DqM3yFzxhhg=="), 32%nat)
  /\ Crypto.encrypt_data xor_block fold_kdf counter_bytes plaintext password 256%nat
     = (OK ("nOyjh8IXZm60h2RbvpXILw==", "CzBVep/E6Q4zWH2ix+wRNg==",
            "W4Clyu8UOV6DqM3yFzxhhg=="), 288%nat)
  /\ "nOyjh8IXZm60h2RbvpXILw=="%string = "nOyjh8IXZm60h2RbvpXILw=="%string.
Proof.
  assert (H1 : Crypto.encrypt_data xor_block fold_kdf counter_bytes plaintext
                 password 0%nat
               = (OK ("nOyjh8IXZm60h2RbvpXILw==", "CzBVep/E6Q4zWH2ix+wRNg==",
                      "W4Clyu8UOV6DqM3yFzxhhg=="), 32%nat))
    by (vm_compute; reflexivity).
  assert (H2 : Crypto.encrypt_data xor_block fold_kdf counter_bytes plaintext
                 password 256%nat
               = (OK ("nOyjh8IXZm60h2RbvpXILw==", "CzBVep/E6Q4zWH2ix+wRNg==",
                      "W4Clyu8UOV6DqM3yFzxhhg=="), 288%nat))
    by (vm_compute; reflexivity).
  split; [exact H1|]. split; [exact H2|].
  exact (Crypto.encrypt_data_deterministic xor_block fold_kdf nat counter_bytes
           plaintext password 0%nat 256%nat 32%nat 288%nat _ _ _ _ _ _
           H1 H2 eq_refl eq_refl).
Defined.

(** Ten bytes of UTF-8 give sixteen bytes of ciphertext. *)
Lemma ciphertext_length_witness :
  Crypto.encrypt_data xor_block fold_kdf counter_bytes plaintext password 0%nat
  = (OK ("nOyjh8IXZm60h2RbvpXILw==", "CzBVep/E6Q4zWH2ix+wRNg==",
         "W4Clyu8UOV6DqM3yFzxhhg=="), 32%nat)
  /\ exists data raw,
       Unicode.utf8_encode plaintext = Some data
       /\ Base64.b64decode "nOyjh8IXZm60h2RbvpXILw==" = Some raw
       /\ Crypto.len raw = 16 * (Crypto.len data / 16 + 1)
       /\ Crypto.len raw mod 16 = 0
       /\ 1 <= Crypto.len raw - Crypto.len data <= 16
       /\ raw <> [].
Proof.
  assert (H1 : Crypto.encrypt_data xor_block fold_kdf counter_bytes plaintext
                 password 0%nat
               = (OK ("nOyjh8IXZm60h2RbvpXILw==", "CzBVep/E6Q4zWH2ix+wRNg==",
                      "W4Clyu8UOV6DqM3yFzxhhg=="), 32%nat))
    by (vm_compute; reflexivity).
  split; [exact H1|].
  exact (Crypto.ciphertext_length xor_block fold_kdf nat counter_bytes
           xor_block_length plaintext password 0%nat 32%nat _ _ _ H1).
Defined.

(** *** The vaccine_types parser *)

(** C4 on the cell ["pfizer", "moderna"]: the list does not come back,
    the call raises NumPy's [ValueError]; the cell ["pfizer"] comes back
    as it is, and the cell [None] comes back empty. *)
Lemma parse_vaccine_types_on_lists_witness :
  (parse_vaccine_types (PList [PStr "pfizer"; PStr "moderna"])
   = Raise (Exn ValueError
              ("The truth value of an array with more than one element is "
               +:+ "ambiguous. Use a.any() or a.all()"))
   /\ parse_vaccine_types (PList [PStr "pfizer"; PStr "moderna"])
      <> OK (PList [PStr "pfizer"; PStr "moderna"]))
  /\ parse_vaccine_types (PList [PStr "pfizer"]) = OK (PList [PStr "pfizer"])
  /\ parse_vaccine_types (PList [PNone]) = OK (PList []).
Proof.
  split; [|split].
  - destruct (proj1 (Annotated.parse_vaccine_types_on_lists json_loads
                       empty_array_truth nested_elements
                       [PStr "pfizer"; PStr "moderna"] eq_refl))
      as (Hraise & _ & Hnot); [cbn; lia|].
    split; [exact Hraise|exact Hnot].
  - exact (proj1 (proj2 (Annotated.parse_vaccine_types_on_lists json_loads
                           empty_array_truth nested_elements [PStr "pfizer"]
                           eq_refl)) (PStr "pfizer") eq_refl).
  - exact (proj1 (proj2 (Annotated.parse_vaccine_types_on_lists json_loads
                           empty_array_truth nested_elements [PNone]
                           eq_refl)) PNone eq_refl).
Defined.

(** A number and a dict come back unchanged; a string goes through the
    decoder. *)
Lemma parse_vaccine_types_passes_through_witness :
  parse_vaccine_types (PInt 7) = OK (PInt 7)
  /\ parse_vaccine_types (PStr "not json")
     = match json_loads "not json" with
       | OK v => OK v
       | Raise e =>
           if is_JSONDecodeError e then OK (PList [PStr "not json"]) else Raise e
       end
  /\ is_ok (parse_vaccine_types (PDict [])) = true.
Proof.
  split; [|split].
  - apply (proj1 (Annotated.parse_vaccine_types_passes_through json_loads
                    empty_array_truth nested_elements (PInt 7)));
      reflexivity.
  - apply (proj1 (proj2 (Annotated.parse_vaccine_types_passes_through json_loads
                           empty_array_truth nested_elements
                           (PStr "not json")))); [reflexivity|discriminate].
  - apply (proj2 (proj2 (Annotated.parse_vaccine_types_passes_through json_loads
                           empty_array_truth nested_elements (PDict []))));
      [reflexivity|discriminate].
Defined.

(** The four cases of the parser on the cells of the specification. *)
Lemma parse_vaccine_types_cases_witness :
  parse_vaccine_types PNaN = OK (PList [])
  /\ parse_vaccine_types (PStr EmptyString) = OK (PList [])
  /\ parse_vaccine_types (PStr ("[" +:+ quoted "pfizer" +:+ "]"))
     = OK (PList [PStr "pfizer"])
  /\ parse_vaccine_types (PStr "[]") = OK (PList [])
  /\ parse_vaccine_types (PStr "not json") = OK (PList [PStr "not json"]).
Proof.
  destruct (Annotated.parse_vaccine_types_cases json_loads empty_array_truth
              nested_elements) as (Hmissing & Harray & Hempty & Hbad & Hnot).
  split; [|split; [|split; [|split]]].
  - apply Hmissing. left. reflexivity.
  - apply Hmissing. right. reflexivity.
  - apply Harray; [discriminate|vm_compute; reflexivity].
  - apply Hempty. vm_compute. reflexivity.
  - apply (Hnot decode_error); vm_compute; reflexivity.
Defined.

(** *** The annotated table *)

(** The text the program leaves for the row that holds a list. *)
Definition row_3_error : string :=
  "Row 3: vaccine_types parse error - The truth value of an array with "
  +:+ "more than one element is ambiguous. Use a.any() or a.all()".

(** Four rows give four records; the row that holds a list fails to parse,
    gets [] and leaves the one error text, with its index label 3. *)
Lemma convert_annotated_one_record_per_row_witness :
  empty_array_truth <> Some true
  /\ length (convert_annotated annotated_table).1 = length annotated_table
  /\ (exists rec,
        (convert_annotated annotated_table).1 !! 3%nat = Some rec
        /\ rec !! "vaccine_types"%string = Some (PList [])
        /\ row_3_error ∈ (convert_annotated annotated_table).2)
  /\ (convert_annotated annotated_table).2 = [row_3_error].
Proof.
  assert (Hempty : empty_array_truth <> Some true) by discriminate.
  destruct (Annotated.convert_annotated_one_record_per_row json_loads
              empty_array_truth nested_elements annotated_table Hempty)
    as (Hlen & Hrows & Herrs & _).
  split; [exact Hempty|]. split; [exact Hlen|]. split.
  - destruct (Hrows 3%nat 3 row_list eq_refl) as (rec & Hrec & _ & _ & Hfail).
    exists rec. split; [exact Hrec|].
    exact (Hfail Annotated.ambiguous_truth_value eq_refl).
  - rewrite Herrs. vm_compute. reflexivity.
Defined.

(** *** The thread table *)

Lemma thread_table_has_ids : Forall Threads.has_thread_id thread_table.
Proof. repeat constructor; eexists; reflexivity. Qed.

Lemma fraction_table_has_ids : Forall Threads.has_thread_id fraction_table.
Proof. repeat constructor; eexists; reflexivity. Qed.

Lemma thread_table_accepted :
  Threads.accepted int_of_number int_of_number pretty thread_table.
Proof.
  split.
  - intros id (r & Hr & Hid). each_row Hr; injection Hid as <-; reflexivity.
  - intros r Hr _. each_row Hr; reflexivity.
Qed.

Lemma thread_table_distinct_keys :
  Threads.distinct_keys int_of_number thread_table.
Proof.
  intros id id' k (r & Hr & Hid) (r' & Hr' & Hid') Hk Hk'.
  each_row Hr; injection Hid as <-; each_row Hr'; injection Hid' as <-;
    rewrite int_of_number_whole in Hk, Hk'; congruence.
Qed.

Lemma thread_10_last : Threads.last_of_key number_leb int_of_number thread_table
                         (whole 10) 10.
Proof.
  split; [|split].
  - exists (thread_row (Some (whole 10)) 2 (Some 7) "b").
    split; [right; left|reflexivity].
  - apply int_of_number_whole.
  - intros id' (r & Hr & Hid) Hk.
    each_row Hr; injection Hid as <-; rewrite int_of_number_whole in Hk;
      try discriminate; reflexivity.
Qed.

(** C2 fails as stated: of two rows, one without thread id, one post is
    left in the map; and of two rows with the thread ids 10.2 and 10.7,
    none missing, the one post of 10.7 is left, under the key "10". *)
Lemma convert_threads_loses_rows :
  (exists d, convert_threads orphan_table = OK d
             /\ Threads.total_posts d <> length orphan_table)
  /\ (exists d, convert_threads fraction_table = OK d
                /\ Forall Threads.has_thread_id fraction_table
                /\ d = {[ "10"%string := [patient_post 2 "2" "b"] ]}
                /\ Threads.total_posts d <> length fraction_table).
Proof.
  split.
  - eexists. split; [vm_compute; reflexivity|]. vm_compute. discriminate.
  - eexists. split; [vm_compute; reflexivity|].
    split; [exact fraction_table_has_ids|].
    split; [vm_compute; reflexivity|]. vm_compute. discriminate.
Qed.

(** Five rows with the thread ids 10 and 11, none missing, give five
    posts. *)
Lemma convert_threads_total_posts_witness :
  Threads.distinct_keys int_of_number thread_table
  /\ Forall Threads.has_thread_id thread_table
  /\ exists d,
       convert_threads thread_table = OK d
       /\ Threads.total_posts d = length thread_table
       /\ exists posts,
            mapM make_post thread_table = OK posts
            /\ concat (map_to_list d).*2 ≡ₚ posts.
Proof.
  split; [exact thread_table_distinct_keys|].
  split; [exact thread_table_has_ids|].
  destruct (Threads.convert_threads_total_posts number number_leb int_of_number
              number int_of_number Z Z.leb pretty number_leb_total
              number_leb_trans number_leb_antisym thread_table) as [Hok Hd].
  specialize (Hok thread_table_accepted).
  destruct (convert_threads thread_table) as [d|e]; [|discriminate].
  exists d. split; [reflexivity|].
  destruct (Hd d eq_refl) as (_ & _ & Hall).
  destruct (Hall thread_table_distinct_keys) as [_ Hrows].
  exact (Hrows thread_table_has_ids).
Defined.

(** In thread 10 the posts of time 7 are "b" then "d", those of time 3 are
    "c" then "e", as in the table. *)
Lemma convert_threads_stable_witness :
  Threads.last_of_key number_leb int_of_number thread_table (whole 10) 10
  /\ exists d rows posts,
       convert_threads thread_table = OK d
       /\ d !! pretty 10 = Some posts
       /\ mapM make_post rows = OK posts
       /\ rows ≡ₚ filter (Threads.in_thread (whole 10)) thread_table
       /\ forall ts,
            filter (Threads.has_timestamp ts) rows
            = filter (Threads.has_timestamp ts)
                (filter (Threads.in_thread (whole 10)) thread_table).
Proof.
  split; [exact thread_10_last|].
  destruct (Threads.convert_threads_stable number number_leb int_of_number
              number int_of_number Z Z.leb pretty number_leb_total
              number_leb_trans number_leb_antisym Z.leb_refl thread_table)
    as (Hok & _ & Hd).
  specialize (Hok thread_table_accepted).
  destruct (convert_threads thread_table) as [d|e]; [|discriminate].
  destruct (Hd d (whole 10) 10 eq_refl thread_10_last) as (rows & posts & Hrows).
  exists d, rows, posts. split; [reflexivity|exact Hrows].
Defined.

(** The row without thread id leaves nothing in the map. *)
Lemma convert_threads_drops_missing_thread_id_witness :
  convert_threads orphan_table
  = convert_threads (filter Threads.has_thread_id orphan_table)
  /\ exists d,
       convert_threads orphan_table = OK d
       /\ d !! "10"%string
          = Some [patient_post 2 "7" "b"]
       /\ exists id k rows,
            int_of_number id = OK k
            /\ "10"%string = pretty k
            /\ mapM make_post rows
               = OK [patient_post 2 "7" "b"]
            /\ rows ≡ₚ filter (Threads.in_thread id) orphan_table
            /\ Forall Threads.has_thread_id rows.
Proof.
  destruct (Threads.convert_threads_drops_missing_thread_id number number_leb
              int_of_number number int_of_number Z Z.leb pretty
              number_leb_total number_leb_trans number_leb_antisym
              orphan_table) as (Heq & Hkeys).
  split; [exact Heq|].
  destruct (convert_threads orphan_table) as [d|e] eqn:Hd;
    [|vm_compute in Hd; discriminate].
  assert (H : d !! "10"%string
              = Some [patient_post 2 "7" "b"]).
  { vm_compute in Hd. injection Hd as <-. vm_compute. reflexivity. }
  exists d. split; [reflexivity|]. split; [exact H|].
  exact (Hkeys d _ _ eq_refl H).
Defined.

(** *** The gate *)

(** On the table with the row without thread id the post count is short by
    one: a hard error, and [main] leaves the world as it was. *)
Lemma validation_gate_witness :
  exists d,
    convert_threads orphan_table = OK d
    /\ Validate.validate_data int_of_str (convert_annotated annotated_table).1 d
         annotated_table orphan_table
       = OK (["Threads post count mismatch: 1 vs 2"%string],
             ["Thread IDs in annotated but not in threads: 2"%string;
              "Records with empty vaccine_types: 2"%string])
    /\ Pipeline.main number_leb int_of_number int_of_number Z.leb pretty
         json_loads empty_array_truth nested_elements int_of_str xor_block
         fold_kdf counter_bytes json_dump_records json_dumps_threads
         json_dump_config password (start_world orphan_table)
       = (OK false, start_world orphan_table)
    /\ ["Threads post count mismatch: 1 vs 2"%string]
       = Validate.count_errors (convert_annotated annotated_table).1 d
           annotated_table orphan_table.
Proof.
  destruct (convert_threads orphan_table) as [d|e] eqn:Hd;
    [|vm_compute in Hd; discriminate].
  assert (Hv : Validate.validate_data int_of_str
                 (convert_annotated annotated_table).1 d
                 annotated_table orphan_table
               = OK (["Threads post count mismatch: 1 vs 2"%string],
                     ["Thread IDs in annotated but not in threads: 2"%string;
                      "Records with empty vaccine_types: 2"%string])).
  { vm_compute in Hd. injection Hd as <-. vm_compute. reflexivity. }
  destruct (Pipeline.validation_gate number number_leb int_of_number number
              int_of_number Z Z.leb pretty json_loads empty_array_truth
              nested_elements int_of_str xor_block fold_kdf nat counter_bytes
              json_dump_records json_dumps_threads json_dump_config)
    as (Hclass & Hhalt).
  exists d. split; [reflexivity|]. split; [exact Hv|]. split.
  - apply (Hhalt password (start_world orphan_table) annotated_table orphan_table
             d _ _ eq_refl eq_refl Hd Hv). discriminate.
  - exact (proj1 (Hclass _ _ _ _ _ _ Hv)).
Defined.

End Checks.


(** * Further properties of the conversion functions *)

(** ** The thread dict: its keys and the order of its posts *)

Module ThreadsFacts.

Lemma length_filter_all {A} (P : A -> Prop) `{forall x, Decision (P x)} (l : list A) :
  length (filter P l) = length l <-> Forall P l.
Proof.
  induction l as [|x l IH].
  - split; [constructor|reflexivity].
  - rewrite filter_cons. destruct (decide (P x)) as [Hx|Hx].
    + cbn. rewrite Forall_cons. split.
      * intros Hl. split; [exact Hx|]. apply IH. lia.
      * intros [_ Hl]. f_equal. apply IH. exact Hl.
    + pose proof (length_filter P l). rewrite Forall_cons. split.
      * cbn. lia.
      * intros [Hx' _]. contradiction.
Qed.

(** A dict made of a list of items has at most as many keys as the list
    has items, and as many exactly when no key comes twice. *)
Lemma size_list_to_map {A} (l : list (string * A)) :
  (size (list_to_map l : gmap string A) <= length l)%nat
  /\ (size (list_to_map l : gmap string A) = length l <-> NoDup l.*1).
Proof.
  induction l as [|[key x] l [IHle IHeq]].
  - rewrite list_to_map_nil, map_size_empty.
    split; [reflexivity|]. split; [constructor|reflexivity].
  - cbn [list_to_map foldr fmap list_fmap fst snd length].
    change (foldr (fun p : string * A => <[p.1 := p.2]>) (∅ : gmap string A) l)
      with (list_to_map l : gmap string A).
    rewrite NoDup_cons.
    destruct ((list_to_map l : gmap string A) !! key) as [old|] eqn:E.
    + rewrite (map_size_insert_Some key x _ (ltac:(eauto))).
      assert (Hin : key ∈ l.*1).
      { apply elem_of_list_to_map_2 in E.
        apply list_elem_of_fmap. exists (key, old). split; [reflexivity|exact E]. }
      split; [lia|]. split; [lia|]. intros [Hnot _]. contradiction.
    + rewrite (map_size_insert_None key x _ E).
      apply not_elem_of_list_to_map in E.
      split; [lia|]. rewrite <- IHeq.
      split; [intros; split; [exact E|lia]|intros [_ ?]; lia].
Qed.

Section Facts.

Variable K : Type.
Context {K_eq_dec : EqDecision K}.
Variable id_leb : K -> K -> bool.
Variable int_of_id : K -> result Z.

Variable N : Type.
Variable int_of_num : N -> result Z.

Variable T : Type.
Context {T_eq_dec : EqDecision T}.
Variable ts_leb : T -> T -> bool.
Variable ts_str : T -> string.

Local Abbreviation thread_row := (Threads.thread_row K N T).
Local Abbreviation convert_threads :=
  (Threads.convert_threads id_leb int_of_id int_of_num ts_leb ts_str).
Local Abbreviation make_post := (Threads.make_post int_of_num ts_str).
Local Abbreviation timestamp_leb := (Threads.timestamp_leb K N T ts_leb).
Local Abbreviation distinct_keys := (Threads.distinct_keys int_of_id).
Local Abbreviation accepted := (Threads.accepted int_of_id int_of_num ts_str).

(** Ascending timestamps, a missing timestamp after all others. *)
Definition by_timestamp (r1 r2 : thread_row) : Prop := timestamp_leb r1 r2 = true.

(** The order of the thread ids is a total order. *)
Hypothesis id_leb_total : forall a b, id_leb a b = true \/ id_leb b a = true.
Hypothesis id_leb_trans : forall a b c,
  id_leb a b = true -> id_leb b c = true -> id_leb a c = true.
Hypothesis id_leb_antisym : forall a b,
  id_leb a b = true -> id_leb b a = true -> a = b.

Section Total.

(** Any two timestamps compare one way or the other. *)
Hypothesis ts_leb_total : forall a b, ts_leb a b = true \/ ts_leb b a = true.

Lemma timestamp_leb_total (r x : thread_row) :
  timestamp_leb r x = false -> timestamp_leb x r = true.
Proof.
  unfold Threads.timestamp_leb, Threads.na_last_leb.
  destruct (Threads.col_timestamp r) as [a|], (Threads.col_timestamp x) as [b|];
    try discriminate; try reflexivity.
  intros Hab. destruct (ts_leb_total a b) as [E|E]; [congruence|exact E].
Qed.

Lemma insert_row_by_timestamp r (l : list thread_row) :
  Sorted by_timestamp l ->
  Sorted by_timestamp (Threads.insert_row K N T timestamp_leb r l).
Proof.
  induction 1 as [|x l Hs IH Hx]; cbn [Threads.insert_row].
  - repeat constructor.
  - destruct (timestamp_leb r x) eqn:E.
    + constructor; [constructor; assumption|]. constructor. exact E.
    + constructor; [exact IH|].
      destruct l as [|y l]; cbn [Threads.insert_row].
      * constructor. apply timestamp_leb_total. exact E.
      * destruct (timestamp_leb r y).
        -- constructor. apply timestamp_leb_total. exact E.
        -- inversion Hx; subst. constructor. assumption.
Qed.

Lemma sort_rows_by_timestamp (l : list thread_row) :
  Sorted by_timestamp (Threads.sort_rows K N T timestamp_leb l).
Proof.
  induction l as [|r l IH]; cbn; [constructor|].
  apply insert_row_by_timestamp. exact IH.
Qed.

(** X1: in every post sequence of the dict the posts stand in ascending
    order of timestamp, posts without timestamp last: the sequence under a
    key is made, post by post, from the rows of one thread id, and each of
    these rows has a timestamp at most that of the next. *)
Theorem thread_posts_by_timestamp (df : list thread_row) d key posts :
  convert_threads df = OK d ->
  d !! key = Some posts ->
  exists id k rows,
    int_of_id id = OK k
    /\ key = pretty k
    /\ mapM make_post rows = OK posts
    /\ rows ≡ₚ filter (Threads.in_thread id) df
    /\ Sorted by_timestamp rows.
Proof.
  intros Hd H.
  destruct (Threads.convert_threads_lookup K id_leb int_of_id N int_of_num T
              ts_leb ts_str id_leb_total id_leb_trans id_leb_antisym df d key
              posts Hd H)
    as (id & k & _ & Hk & -> & ->).
  apply Threads.convert_threads_OK in Hd as [Hacc _]; try assumption.
  exists id, k,
    (Threads.sort_rows K N T timestamp_leb (filter (Threads.in_thread id) df)).
  split; [exact Hk|]. split; [reflexivity|].
  split; [apply (Threads.accepted_mapM K int_of_id N int_of_num T ts_str df _ Hacc),
            Threads.thread_rows_sub|].
  split; [apply Threads.sort_rows_Permutation|apply sort_rows_by_timestamp].
Qed.

End Total.

(** X2: the keys of the dict are the texts of the [int] of the thread ids
    that occur in the table, and no others.  Two thread ids can have the
    same key, so the dict has at most as many threads as the table has
    thread ids, and as many exactly when no two of them have the same
    [int]. *)
Theorem convert_threads_keys (df : list thread_row) d :
  convert_threads df = OK d ->
  (forall key,
     is_Some (d !! key)
     <-> exists id k, Threads.present df id /\ int_of_id id = OK k
                      /\ key = pretty k)
  /\ forall ids : list K,
       NoDup ids -> (forall id, id ∈ ids <-> Threads.present df id) ->
       (size d <= length ids)%nat
       /\ (size d = length ids <-> distinct_keys df).
Proof.
  intros Hd. split.
  - intros key.
    apply Threads.convert_threads_keys_of
      with (K_eq_dec := K_eq_dec) (id_leb := id_leb) (int_of_num := int_of_num)
           (ts_leb := ts_leb) (ts_str := ts_str) (df := df);
      assumption.
  - intros ids Hnd Hids.
    assert (Hlen : length ids
                   = length (Threads.thread_items K id_leb int_of_id N
                               int_of_num T ts_leb ts_str df)).
    { unfold Threads.thread_items. rewrite length_map.
      apply Permutation_length, NoDup_Permutation; [exact Hnd| |].
      - apply Threads.NoDup_group_keys; assumption.
      - intros id. rewrite Hids. symmetry.
        apply Threads.group_keys_present; assumption. }
    apply Threads.convert_threads_OK in Hd as [Hacc ->]; try assumption.
    destruct (size_list_to_map
                (reverse (Threads.thread_items K id_leb int_of_id N int_of_num
                            T ts_leb ts_str df))) as [Hle Heq].
    rewrite length_reverse, <- Hlen in Hle, Heq. split; [exact Hle|].
    rewrite Heq, fmap_reverse, reverse_Permutation.
    apply Threads.NoDup_thread_items; assumption.
Qed.

(** X15: [convert_threads] returns exactly when [int] takes what the
    loops give it: every thread id that occurs in the table, and the post
    id and the reply number of every row that has a thread id.  Otherwise
    it raises, and what it raises is the exception of [int] on one of
    these (the [OverflowError] of an infinity, the [ValueError] of a text
    that is no number).  A row without thread id has no part in it. *)
Theorem convert_threads_returns (df : list thread_row) :
  (is_ok (convert_threads df) = true <-> accepted df)
  /\ forall e, convert_threads df = Raise e ->
       (exists id, Threads.present df id /\ int_of_id id = Raise e)
       \/ (exists r, r ∈ df /\ Threads.has_thread_id r /\ make_post r = Raise e).
Proof.
  split.
  - apply Threads.convert_threads_is_ok; assumption.
  - intros e He. apply Threads.convert_threads_raised in He; assumption.
Qed.

End Facts.

End ThreadsFacts.

(** ** The annotated records: their keys, their values, row by row *)

Module AnnotatedFacts.

Section Facts.

Variable json_loads : string -> result pyval.
Variable empty_array_truth : option bool.
Variable nested_elements : list pyval -> list pyval.

Local Abbreviation convert_annotated :=
  (Annotated.convert_annotated json_loads empty_array_truth nested_elements).
Local Abbreviation convert_row :=
  (Annotated.convert_row json_loads empty_array_truth nested_elements).
Local Abbreviation isna_truth :=
  (Annotated.isna_truth empty_array_truth nested_elements).
Local Abbreviation to_python :=
  (Annotated.to_python empty_array_truth nested_elements).

Lemma to_python_missing v : is_missing v = true -> to_python v = PNone.
Proof. destruct v; cbn; try discriminate; reflexivity. Qed.

Lemma to_python_scalar v :
  is_missing v = false -> is_list v = false -> to_python v = v.
Proof. destruct v; cbn; try discriminate; reflexivity. Qed.

Lemma to_python_not_NaN v : to_python v <> PNaN.
Proof.
  unfold Annotated.to_python.
  destruct (isna_truth v) as [[|]|e] eqn:E; try discriminate;
    destruct v; cbn in E; try discriminate.
Qed.

(** X3: a converted record has the columns of its row and the key
    vaccine_types, no more and no less.  Every cell that [pd.read_csv]
    left as NaN has become [None], no value of the record is a NaN, and a
    cell that holds a number, a boolean or a text is in the record as it
    is in the row. *)
Theorem converted_record_shape (df : dataframe) (i : nat) idx row rec :
  df !! i = Some (idx, row) ->
  (convert_annotated df).1 !! i = Some rec ->
  dom rec = {["vaccine_types"%string]} ∪ dom row
  /\ (forall key v, rec !! key = Some v -> v <> PNaN)
  /\ (forall key x, key <> "vaccine_types"%string -> row !! key = Some x ->
        (is_missing x = true -> rec !! key = Some PNone)
        /\ (is_missing x = false -> is_list x = false -> rec !! key = Some x)).
Proof.
  intros Hi Hrec.
  rewrite Annotated.convert_annotated_map in Hrec. cbn [fst] in Hrec.
  rewrite list_lookup_fmap, Hi in Hrec. cbn in Hrec. injection Hrec as <-.
  unfold Annotated.convert_row.
  destruct (Annotated.parse_row json_loads empty_array_truth nested_elements row)
    as [v|e]; cbn [fst];
    (split; [rewrite dom_fmap_L, dom_insert_L; reflexivity|]); split.
  - intros key x Hx. rewrite lookup_fmap in Hx.
    destruct (_ !! key) as [y|]; cbn in Hx; [|discriminate].
    injection Hx as <-. apply to_python_not_NaN.
  - intros key x Hkey Hx. rewrite lookup_fmap, lookup_insert_ne, Hx by congruence.
    cbn. split; [intros Hm; rewrite to_python_missing by exact Hm; reflexivity|].
    intros Hm Hl. rewrite to_python_scalar by assumption. reflexivity.
  - intros key x Hx. rewrite lookup_fmap in Hx.
    destruct (_ !! key) as [y|]; cbn in Hx; [|discriminate].
    injection Hx as <-. apply to_python_not_NaN.
  - intros key x Hkey Hx. rewrite lookup_fmap, lookup_insert_ne, Hx by congruence.
    cbn. split; [intros Hm; rewrite to_python_missing by exact Hm; reflexivity|].
    intros Hm Hl. rewrite to_python_scalar by assumption. reflexivity.
Qed.

(** X4: on a table that has no vaccine_types column the conversion goes
    through all the same: every record gets vaccine_types [], and the error
    list holds one text for each row, in row order: "Row ", the row's index
    label, and ": vaccine_types parse error - 'vaccine_types'", the text of
    the [KeyError]. *)
Theorem convert_annotated_without_column (df : dataframe) :
  empty_array_truth <> Some true ->
  Forall (fun p => p.2 !! "vaccine_types"%string = None) df ->
  (convert_annotated df).2
  = map (fun p => "Row " +:+ pretty p.1
                  +:+ ": vaccine_types parse error - 'vaccine_types'") df
  /\ length (convert_annotated df).1 = length df
  /\ Forall (fun rec => rec !! "vaccine_types"%string = Some (PList []))
       (convert_annotated df).1.
Proof.
  intros Hempty Hall.
  rewrite Annotated.convert_annotated_map. cbn [fst snd].
  split; [|split; [apply length_map|]].
  - induction Hall as [|[idx row] df Hrow _ IH]; [reflexivity|].
    cbn in *. rewrite IH, Annotated.convert_row_errors.
    unfold Annotated.parse_row, Annotated.getitem. rewrite Hrow. reflexivity.
  - apply Forall_fmap. eapply Forall_impl; [exact Hall|].
    intros [idx row] Hrow. cbn in *.
    unfold Annotated.convert_row, Annotated.parse_row, Annotated.getitem.
    rewrite Hrow. cbn. rewrite lookup_fmap, lookup_insert_eq. cbn.
    rewrite Annotated.to_python_empty_list by exact Hempty. reflexivity.
Qed.

End Facts.

End AnnotatedFacts.

(** ** The validator: when it returns, and when it warns *)

Module ValidateFacts.

Lemma mapM_is_ok {A B} (f : A -> result B) (l : list A) :
  is_ok (mapM f l) = true <-> Forall (fun x => is_ok (f x) = true) l.
Proof.
  induction l as [|x l IH]; cbn.
  - split; [constructor|reflexivity].
  - rewrite Forall_cons, <- IH.
    destruct (f x) as [y|e]; cbn; [|split; [discriminate|intros [? _]; discriminate]].
    destruct (mapM f l) as [k|e]; cbn; split; try tauto; try discriminate.
Qed.

Lemma mapM_OK_elem_of {A B} (f : A -> result B) (l : list A) (k : list B) :
  mapM f l = OK k ->
  (forall y, y ∈ k -> exists x, x ∈ l /\ f x = OK y)
  /\ (forall x, x ∈ l -> exists y, y ∈ k /\ f x = OK y).
Proof.
  revert k. induction l as [|x l IH]; intros k; cbn.
  - intros H. injection H as <-. split; intros ? Hin; inversion Hin.
  - destruct (f x) as [y|e] eqn:E; cbn; [|discriminate].
    destruct (mapM f l) as [k'|e]; cbn; [|discriminate].
    intros H. injection H as <-.
    destruct (IH k' eq_refl) as [IH1 IH2]. split.
    + intros z Hz. apply elem_of_cons in Hz as [->|Hz].
      * exists x. split; [left|exact E].
      * destruct (IH1 z Hz) as (x' & Hx' & Hf). exists x'. split; [right|]; assumption.
    + intros z Hz. apply elem_of_cons in Hz as [->|Hz].
      * exists y. split; [left|exact E].
      * destruct (IH2 z Hz) as (y' & Hy' & Hf). exists y'. split; [right|]; assumption.
Qed.

Lemma elem_of_py_set x l : x ∈ Validate.py_set l -> x ∈ l.
Proof.
  induction l as [|y l IH]; cbn; [intros H; inversion H|].
  destruct (existsb (Validate.py_eqb y) l).
  - intros H. right. apply IH. exact H.
  - intros H. apply elem_of_cons in H as [->|H]; [left|right; apply IH; exact H].
Qed.

Lemma py_eqb_int k : Validate.py_eqb (PInt k) (PInt k) = true.
Proof. cbn. apply Qeq_bool_iff. reflexivity. Qed.

Section Facts.

Variable K : Type.
Context {K_eq_dec : EqDecision K}.
Variable id_leb : K -> K -> bool.
Variable int_of_id : K -> result Z.

Variable N : Type.
Variable int_of_num : N -> result Z.

Variable T : Type.
Context {T_eq_dec : EqDecision T}.
Variable ts_leb : T -> T -> bool.
Variable ts_str : T -> string.
Variable int_of_str : string -> result Z.

Local Abbreviation validate_data := (@Validate.validate_data K N T int_of_str).
Local Abbreviation convert_threads :=
  (Threads.convert_threads id_leb int_of_id int_of_num ts_leb ts_str).

(** X6: [validate_data] returns its two lists, rather than raise, exactly
    when every annotated record has a [thread_id] that a set can hold, every
    key of the thread dict is a text [int] accepts, and every annotated
    record has a [vaccine_types]; the row counts have no part in it. *)
Theorem validate_data_returns (annotated_records : list record)
    (threads_dict : gmap string (list post)) (annotated_df : dataframe)
    (threads_df : list (Threads.thread_row K N T)) :
  is_ok (validate_data annotated_records threads_dict annotated_df threads_df)
  = true
  <-> Forall (fun r => exists v, r !! "thread_id"%string = Some v
                                 /\ Validate.hashable v = true)
        annotated_records
      /\ Forall (fun key => is_ok (int_of_str key) = true)
           (map_to_list threads_dict).*1
      /\ Forall (fun r => is_Some (r !! "vaccine_types"%string))
           annotated_records.
Proof.
  assert (Hid : forall r : record,
            is_ok (Validate.thread_id_of r) = true
            <-> exists v, r !! "thread_id"%string = Some v
                          /\ Validate.hashable v = true).
  { intros r. unfold Validate.thread_id_of, Annotated.getitem.
    destruct (r !! "thread_id"%string) as [v|]; cbn.
    - destruct (Validate.hashable v) eqn:Eh; cbn; split; try discriminate.
      + intros _. eauto.
      + reflexivity.
      + intros (v' & Hv & Hh). congruence.
    - split; [discriminate|]. intros (v & Hv & _). discriminate. }
  assert (Hvt : forall r : record,
            is_ok (Validate.vaccine_types_empty r) = true
            <-> is_Some (r !! "vaccine_types"%string)).
  { intros r. unfold Validate.vaccine_types_empty, Annotated.getitem.
    destruct (r !! "vaccine_types"%string) as [v|]; cbn; split;
      try discriminate; eauto.
    intros [? ?]. discriminate. }
  rewrite <- (Forall_iff _ annotated_records _ Hid).
  rewrite <- (Forall_iff _ annotated_records _ Hvt).
  rewrite <- !mapM_is_ok.
  unfold Validate.validate_data, Validate.missing_in_threads,
    Validate.empty_vaccine_types.
  destruct (mapM Validate.thread_id_of annotated_records) as [ids|e]; cbn;
    [|split; [discriminate|intros (? & _); discriminate]].
  destruct (mapM int_of_str (map_to_list threads_dict).*1) as [ks|e]; cbn;
    [|split; [discriminate|intros (_ & ? & _); discriminate]].
  destruct (mapM Validate.vaccine_types_empty annotated_records) as [bs|e]; cbn;
    [|split; [discriminate|intros (_ & _ & ?); discriminate]].
  split; [intros _; repeat split|reflexivity].
Qed.

(** The order of the thread ids is a total order. *)
Hypothesis id_leb_total : forall a b, id_leb a b = true \/ id_leb b a = true.
Hypothesis id_leb_trans : forall a b c,
  id_leb a b = true -> id_leb b c = true -> id_leb a c = true.
Hypothesis id_leb_antisym : forall a b,
  id_leb a b = true -> id_leb b a = true -> a = b.

(** [int] reads back the decimal text of an integer. *)
Hypothesis int_of_str_pretty : forall k : Z, int_of_str (pretty k) = OK k.

(** X7: when every annotated record names, as an integer, the [int] of a
    thread id that some row of the thread table has, the set of thread ids
    missing from the dict that [convert_threads] makes of the table is
    empty, and [validate_data] has no warning to give about it. *)
Theorem no_missing_thread_ids (annotated_records : list record)
    (threads_df : list (Threads.thread_row K N T)) threads_dict :
  convert_threads threads_df = OK threads_dict ->
  Forall (fun r => exists k, r !! "thread_id"%string = Some (PInt k)
                             /\ exists row id,
                                  row ∈ threads_df
                                  /\ Threads.in_thread id row
                                  /\ int_of_id id = OK k)
    annotated_records ->
  Validate.missing_in_threads int_of_str annotated_records threads_dict = OK [].
Proof.
  intros Hd Hall. unfold Validate.missing_in_threads.
  assert (Hkeys : forall key,
            is_Some (threads_dict !! key)
            <-> exists id k, Threads.present threads_df id
                             /\ int_of_id id = OK k /\ key = pretty k).
  { intros key.
    apply Threads.convert_threads_keys_of
      with (K_eq_dec := K_eq_dec) (id_leb := id_leb) (int_of_num := int_of_num)
           (ts_leb := ts_leb) (ts_str := ts_str) (df := threads_df);
      assumption. }
  destruct (mapM Validate.thread_id_of annotated_records) as [ids|e] eqn:Eids.
  2:{ assert (Hok : is_ok (mapM Validate.thread_id_of annotated_records) = true).
      { apply mapM_is_ok. eapply Forall_impl; [exact Hall|].
        intros r (k & Hk & _). unfold Validate.thread_id_of, Annotated.getitem.
        rewrite Hk. reflexivity. }
      rewrite Eids in Hok. discriminate. }
  cbn.
  destruct (mapM int_of_str (map_to_list threads_dict).*1) as [ks|e] eqn:Eks.
  2:{ assert (Hok : is_ok (mapM int_of_str (map_to_list threads_dict).*1) = true).
      { apply mapM_is_ok. apply Forall_forall. intros key Hkey.
        apply list_elem_of_fmap in Hkey as ([key' posts] & -> & Hin).
        apply elem_of_map_to_list in Hin. cbn.
        destruct (proj1 (Hkeys key') (ltac:(eauto))) as (id & k & _ & _ & ->).
        rewrite int_of_str_pretty. reflexivity. }
      rewrite Eks in Hok. discriminate. }
  cbn. f_equal. unfold Validate.set_difference.
  assert (Hcovered : forall x, x ∈ Validate.py_set ids ->
            existsb (Validate.py_eqb x) (PInt <$> ks) = true).
  { intros x Hx%elem_of_py_set.
    destruct (proj1 (mapM_OK_elem_of _ _ _ Eids) x Hx) as (r & Hr & Hf).
    rewrite Forall_forall in Hall.
    destruct (Hall r Hr) as (k & Hk & row & id & Hrow & Hin & Hint).
    unfold Validate.thread_id_of, Annotated.getitem in Hf. rewrite Hk in Hf.
    cbn in Hf. injection Hf as <-.
    assert (Hkey : pretty k ∈ (map_to_list threads_dict).*1).
    { destruct (proj2 (Hkeys (pretty k))) as [posts Hposts].
      { exists id, k. split; [exists row; split; assumption|].
        split; [exact Hint|reflexivity]. }
      apply list_elem_of_fmap. exists (pretty k, posts).
      split; [reflexivity|]. apply elem_of_map_to_list. exact Hposts. }
    destruct (proj2 (mapM_OK_elem_of _ _ _ Eks) _ Hkey) as (k' & Hk' & Hf').
    rewrite int_of_str_pretty in Hf'. injection Hf' as <-.
    apply existsb_exists. exists (PInt k). split; [|apply py_eqb_int].
    apply list_elem_of_In, list_elem_of_fmap. exists k. split; [reflexivity|exact Hk']. }
  induction (Validate.py_set ids) as [|x l IH]; [reflexivity|].
  cbn. rewrite Hcovered by left. cbn. apply IH.
  intros y Hy. apply Hcovered. right. exact Hy.
Qed.

End Facts.

End ValidateFacts.

(** ** [encrypt_data]: when it raises, and the size of what it returns *)

Module CryptoFacts.

Lemma b64encode_length (bs : list byte) :
  Z.of_nat (String.length (Base64.b64encode bs)) = 4 * ((Crypto.len bs + 2) / 3).
Proof.
  assert (H : forall n (l : list byte), (length l < n)%nat ->
            Z.of_nat (String.length (Base64.b64encode l))
            = 4 * ((Crypto.len l + 2) / 3)).
  { induction n as [|n IH]; intros l Hlen; [lia|].
    destruct l as [|a [|b [|c rest]]]; try reflexivity.
    cbn [Base64.b64encode String.length].
    rewrite !Nat2Z.inj_succ, IH by (cbn in Hlen; lia).
    unfold Crypto.len. cbn [length]. rewrite !Nat2Z.inj_succ.
    Z.to_euclidean_division_equations. lia. }
  apply (H (S (length bs))). lia.
Qed.

Definition latin1_error : exn :=
  Exn UnicodeEncodeError "'latin-1' codec can't encode character".

Definition utf8_error : exn :=
  Exn UnicodeEncodeError "'utf-8' codec can't encode character".

Section Facts.

Variable aes_encrypt_block : list byte -> list byte -> list byte.
Variable aes_decrypt_block : list byte -> list byte -> list byte.
Variable pbkdf2 : list byte -> list byte -> Z -> Z -> list byte.
Variable rng : Type.
Variable get_random_bytes : nat -> rng -> list byte * rng.

Local Abbreviation encrypt_data :=
  (Crypto.encrypt_data aes_encrypt_block pbkdf2 get_random_bytes).
Local Abbreviation decrypt_data :=
  (Crypto.decrypt_data aes_decrypt_block pbkdf2).

Hypothesis aes_block_length : forall key block,
  Crypto.aes_key_ok key = true -> length block = 16%nat ->
  length (aes_encrypt_block key block) = 16%nat.

Hypothesis aes_decrypt_encrypt : forall key block,
  Crypto.aes_key_ok key = true -> length block = 16%nat ->
  aes_decrypt_block key (aes_encrypt_block key block) = block.

Hypothesis pbkdf2_length : forall pw salt dkLen count,
  0 <= dkLen -> Crypto.len (pbkdf2 pw salt dkLen count) = dkLen.

Hypothesis get_random_bytes_length : forall n g,
  length (fst (get_random_bytes n g)) = n.



(** X8: [encrypt_data] raises in two cases and no other: when the password
    has a character outside Latin-1, and, the password being fine, when the
    plaintext has a code point UTF-8 cannot encode; both are
    [UnicodeEncodeError].  The cipher never refuses the key, the IV or the
    padded data.  And whether it raises or returns, it has drawn its 32
    random bytes. *)
Theorem encrypt_data_outcome (P W : Unicode.str) (g : rng) :
  (Unicode.latin1_encode W = None ->
   fst (encrypt_data P W g) = Raise latin1_error)
  /\ (is_Some (Unicode.latin1_encode W) -> Unicode.utf8_encode P = None ->
      fst (encrypt_data P W g) = Raise utf8_error)
  /\ (is_Some (Unicode.latin1_encode W) -> is_Some (Unicode.utf8_encode P) ->
      is_ok (fst (encrypt_data P W g)) = true)
  /\ snd (encrypt_data P W g)
     = snd (get_random_bytes 16 (snd (get_random_bytes 16 g))).
Proof.
  pose proof (get_random_bytes_length 16 g) as Hsalt.
  pose proof (get_random_bytes_length 16 (snd (get_random_bytes 16 g))) as Hiv.
  unfold Crypto.encrypt_data, Crypto.PBKDF2, Crypto.AES_new, Crypto.encode_utf8,
    Crypto.cipher_encrypt, Crypto.block_size.
  destruct (get_random_bytes 16 g) as [salt g1]. cbn [fst snd] in *.
  destruct (get_random_bytes 16 g1) as [iv g2]. cbn [fst snd] in *.
  assert (Hiv' : Crypto.len iv = 16) by (unfold Crypto.len; lia).
  split; [|split; [|split; [|reflexivity]]].
  - intros ->. reflexivity.
  - intros [pw ->] ->. cbn.
    rewrite (Crypto.derived_key_ok pbkdf2 pbkdf2_length), Hiv'. reflexivity.
  - intros [pw ->] [data ->]. cbn.
    rewrite (Crypto.derived_key_ok pbkdf2 pbkdf2_length), Hiv'. cbn.
    rewrite Crypto.pad_block_aligned. reflexivity.
Qed.

(** X9: the three texts [encrypt_data] returns have fixed sizes: salt and
    IV are 24 characters of base64 each, and the ciphertext has four
    characters for every three bytes, rounded up, of a byte string that is
    the plaintext's UTF-8 length rounded up to the next multiple of 16. *)
Theorem encrypt_data_text_lengths (P W : Unicode.str) (g g' : rng)
    (C S V : string) :
  encrypt_data P W g = (OK (C, S, V), g') ->
  String.length S = 24%nat
  /\ String.length V = 24%nat
  /\ exists data,
       Unicode.utf8_encode P = Some data
       /\ Z.of_nat (String.length C)
          = 4 * ((16 * (Crypto.len data / 16 + 1) + 2) / 3).
Proof.
  intros H.
  pose proof (get_random_bytes_length 16 g) as Hsalt.
  destruct (Crypto.encrypt_data_inv _ _ _ _ _ _ _ _ _ _ _ H)
    as (salt & iv & pw & data & enc & Es & _ & _ & Hk & Hiv & Hd & He
        & -> & -> & ->).
  rewrite Es in Hsalt.
  pose proof (Crypto.cipher_encrypt_length aes_encrypt_block aes_block_length
                _ _ _ _ Hk Hiv He) as Hlen.
  rewrite Crypto.pad_length in Hlen.
  pose proof (b64encode_length salt) as Hs.
  pose proof (b64encode_length iv) as Hv.
  pose proof (b64encode_length enc) as Hc.
  rewrite Hlen in Hc. rewrite Hiv in Hv.
  unfold Crypto.len in Hs. rewrite Hsalt in Hs.
  split; [|split].
  - change ((Z.of_nat 16 + 2) / 3) with 6 in Hs. lia.
  - change ((16 + 2) / 3) with 6 in Hv. lia.
  - exists data. split; [exact Hd|exact Hc].
Qed.

End Facts.

End CryptoFacts.

(** ** The run as a whole *)

Module PipelineFacts.

Section Facts.

Variable K : Type.
Context {K_eq_dec : EqDecision K}.
Variable id_leb : K -> K -> bool.
Variable int_of_id : K -> result Z.

Variable N : Type.
Variable int_of_num : N -> result Z.

Variable T : Type.
Context {T_eq_dec : EqDecision T}.
Variable ts_leb : T -> T -> bool.
Variable ts_str : T -> string.

Variable json_loads : string -> result pyval.
Variable empty_array_truth : option bool.
Variable nested_elements : list pyval -> list pyval.
Variable int_of_str : string -> result Z.

Variable aes_encrypt_block : list byte -> list byte -> list byte.
Variable aes_decrypt_block : list byte -> list byte -> list byte.
Variable pbkdf2 : list byte -> list byte -> Z -> Z -> list byte.
Variable rng : Type.
Variable get_random_bytes : nat -> rng -> list byte * rng.

Variable json_dump_records : list record -> string.
Variable json_dumps_threads : gmap string (list post) -> Unicode.str.
Variable json_dump_config : string -> string -> Z -> Z -> string -> string.

Local Abbreviation world := (Pipeline.world K N T rng).
Local Abbreviation main :=
  (Pipeline.main id_leb int_of_id int_of_num ts_leb ts_str json_loads
     empty_array_truth
     nested_elements int_of_str aes_encrypt_block pbkdf2 get_random_bytes
     json_dump_records json_dumps_threads json_dump_config).
Local Abbreviation convert_annotated :=
  (Annotated.convert_annotated json_loads empty_array_truth nested_elements).
Local Abbreviation convert_threads :=
  (Threads.convert_threads id_leb int_of_id int_of_num ts_leb ts_str).
Local Abbreviation validate_data := (@Validate.validate_data K N T int_of_str).
Local Abbreviation annotated_csv := (Pipeline.annotated_csv K N T rng).
Local Abbreviation threads_csv := (Pipeline.threads_csv K N T rng).
Local Abbreviation output_dir := (Pipeline.output_dir K N T rng).
Local Abbreviation files := (Pipeline.files K N T rng).
Local Abbreviation random := (Pipeline.random K N T rng).

(** The validation of a run: [validate_data] on what the two conversions
    make of the two tables. *)
Definition validation (annotated_df : dataframe)
    (threads_df : list (Threads.thread_row K N T))
    : result (list string * list string) :=
  threads_dict ← convert_threads threads_df;
  validate_data (convert_annotated annotated_df).1 threads_dict
    annotated_df threads_df.



Lemma validation_inv annotated_df threads_df errors warnings :
  validation annotated_df threads_df = OK (errors, warnings) ->
  exists threads_dict,
    convert_threads threads_df = OK threads_dict
    /\ validate_data (convert_annotated annotated_df).1 threads_dict
         annotated_df threads_df = OK (errors, warnings).
Proof.
  unfold validation.
  destruct (convert_threads threads_df) as [d|e]; [|discriminate].
  intros H. exists d. split; [reflexivity|exact H].
Qed.

(** X11: when [main] returns [False] it has touched nothing, and it
    returns [False] for one of four reasons only: a password of fewer than
    8 characters, a missing annotated file, a missing threads file, or a
    validation with hard errors. *)
Theorem main_false (password : Unicode.str) (w w' : world) :
  main password w = (OK false, w') ->
  w' = w
  /\ (Z.of_nat (length password) < 8
      \/ annotated_csv w = None
      \/ threads_csv w = None
      \/ exists annotated_df threads_df errors warnings,
           annotated_csv w = Some annotated_df
           /\ threads_csv w = Some threads_df
           /\ validation annotated_df threads_df = OK (errors, warnings)
           /\ errors <> []).
Proof.
  unfold Pipeline.main, validation.
  destruct (Z.ltb_spec (Z.of_nat (length password)) 8) as [Hshort|Hlong].
  { intros H. injection H as <-. split; [reflexivity|]. left. exact Hshort. }
  destruct (annotated_csv w) as [annotated_df|] eqn:Ea.
  2:{ intros H. injection H as <-. split; [reflexivity|]. right. left. reflexivity. }
  destruct (threads_csv w) as [threads_df|] eqn:Et.
  2:{ intros H. injection H as <-. split; [reflexivity|].
      right. right. left. reflexivity. }
  destruct (convert_annotated annotated_df) as [records parse_errors] eqn:Ec.
  cbn [fst].
  destruct (convert_threads threads_df) as [threads_dict|e] eqn:Ed;
    [|discriminate].
  destruct (validate_data records threads_dict annotated_df threads_df)
    as [[errors warnings]|e] eqn:Ev; [|discriminate].
  destruct errors as [|err errors].
  - destruct (Crypto.encode_utf8 _) as [data|e]; [|discriminate].
    destruct (Crypto.encrypt_data _ _ _ _ _ _) as [[[[C S] V]|e] g];
      discriminate.
  - intros H. injection H as <-. split; [reflexivity|].
    right. right. right.
    exists annotated_df, threads_df, (err :: errors), warnings.
    split; [reflexivity|]. split; [reflexivity|].
    split; [rewrite Ec, Ed; exact Ev|]. discriminate.
Qed.


(** The order of the thread ids is a total order. *)
Hypothesis id_leb_total : forall a b, id_leb a b = true \/ id_leb b a = true.
Hypothesis id_leb_trans : forall a b c,
  id_leb a b = true -> id_leb b c = true -> id_leb a c = true.
Hypothesis id_leb_antisym : forall a b,
  id_leb a b = true -> id_leb b a = true -> a = b.

(** X10: in a run the only hard error there can be is the post count: the
    record count always matches.  The error is there exactly when the
    thread table has a row without thread id or two thread ids with the
    same [int]; the dict then has fewer posts than the table has rows, and
    the error list is the one text "Threads post count mismatch: ", the
    number of posts, " vs ", the number of rows. *)
Theorem run_hard_error (annotated_df : dataframe)
    (threads_df : list (Threads.thread_row K N T)) errors warnings :
  validation annotated_df threads_df = OK (errors, warnings) ->
  exists threads_dict,
    convert_threads threads_df = OK threads_dict
    /\ (errors <> []
        <-> ~ (Forall Threads.has_thread_id threads_df
               /\ Threads.distinct_keys int_of_id threads_df))
    /\ (errors = []
        \/ ((Threads.total_posts threads_dict < length threads_df)%nat
            /\ errors
               = ["Threads post count mismatch: "
                  +:+ pretty (Threads.total_posts threads_dict)
                  +:+ " vs " +:+ pretty (length threads_df)])).
Proof.
  intros Hv. apply validation_inv in Hv as (d & Hd & Hv).
  exists d. split; [exact Hd|].
  apply Validate.validate_data_inv in Hv as [-> _].
  unfold Validate.count_errors.
  rewrite Annotated.convert_annotated_map. cbn [fst]. rewrite length_map.
  rewrite decide_False by (intros Hne; apply Hne; reflexivity).
  rewrite app_nil_l.
  destruct (Threads.total_posts_convert_threads K id_leb int_of_id N int_of_num
              T ts_leb ts_str id_leb_total id_leb_trans id_leb_antisym
              threads_df d Hd)
    as [Hle Hiff].
  pose proof (ThreadsFacts.length_filter_all Threads.has_thread_id threads_df)
    as Hall.
  pose proof (length_filter Threads.has_thread_id threads_df) as Hfl.
  destruct (decide (Threads.total_posts d <> length threads_df)) as [Hne|Heq].
  - split.
    + split; [|discriminate]. intros _ [HA HB].
      apply Hiff in HB. apply Hall in HA. lia.
    + right. split; [lia|reflexivity].
  - assert (Heq' : Threads.total_posts d = length threads_df).
    { destruct (decide (Threads.total_posts d = length threads_df));
        [assumption|contradiction]. }
    split; [|left; reflexivity].
    split; [intros Hc; contradiction|].
    intros Hn. exfalso. apply Hn. split; [apply Hall; lia|apply Hiff; lia].
Qed.

Hypothesis aes_block_length : forall key block,
  Crypto.aes_key_ok key = true -> length block = 16%nat ->
  length (aes_encrypt_block key block) = 16%nat.

Hypothesis aes_decrypt_encrypt : forall key block,
  Crypto.aes_key_ok key = true -> length block = 16%nat ->
  aes_decrypt_block key (aes_encrypt_block key block) = block.

Hypothesis pbkdf2_length : forall pw salt dkLen count,
  0 <= dkLen -> Crypto.len (pbkdf2 pw salt dkLen count) = dkLen.

Hypothesis get_random_bytes_length : forall n g,
  length (fst (get_random_bytes n g)) = n.


End Facts.

End PipelineFacts.

(** ** The further properties on the sample tables *)

Module FactChecks.

Import Instances Samples.

Local Abbreviation convert_threads :=
  (Threads.convert_threads number_leb int_of_number int_of_number Z.leb pretty).
Local Abbreviation make_post := (Threads.make_post int_of_number pretty).
Local Abbreviation convert_annotated :=
  (Annotated.convert_annotated json_loads empty_array_truth nested_elements).
Local Abbreviation validation :=
  (PipelineFacts.validation number number_leb int_of_number number
     int_of_number Z Z.leb pretty json_loads empty_array_truth nested_elements
     int_of_str).
Local Abbreviation main :=
  (Pipeline.main number_leb int_of_number int_of_number Z.leb pretty
     json_loads empty_array_truth nested_elements int_of_str xor_block
     fold_kdf counter_bytes json_dump_records json_dumps_threads
     json_dump_config).

(** *** The decimal reader reads back what [str] writes *)

Lemma digit_of_pretty_N_char (d : N) :
  (d < 10)%N -> digit_of (pretty_N_char d) = Some (Z.of_N d).
Proof.
  intros Hd.
  assert (Hn : forall n : nat, (n < 10)%nat ->
            digit_of (pretty_N_char (N.of_nat n)) = Some (Z.of_N (N.of_nat n))).
  { intros n Hlt. do 10 (destruct n as [|n]; [reflexivity|]). lia. }
  rewrite <- (N2Nat.id d). apply Hn. lia.
Qed.

Lemma read_digits_pretty_N_go (x : N) : forall s acc,
  exists m, read_digits acc (list_ascii_of_string (pretty_N_go x s))
            = read_digits (acc * m + Z.of_N x) (list_ascii_of_string s).
Proof.
  induction (N.lt_wf_0 x) as [x _ IH]. intros s acc.
  destruct (N.eq_dec x 0%N) as [->|Hx].
  - exists 1. rewrite pretty_N_go_0. f_equal. lia.
  - rewrite pretty_N_go_step by lia.
    destruct (IH (x `div` 10)%N ltac:(apply N.div_lt; lia)
                (String (pretty_N_char (x `mod` 10)) s) acc) as [m Hm].
    exists (m * 10). rewrite Hm. cbn [list_ascii_of_string read_digits].
    rewrite digit_of_pretty_N_char by (apply N.mod_lt; lia).
    f_equal. rewrite N2Z.inj_div, N2Z.inj_mod. cbn.
    Z.to_euclidean_division_equations. lia.
Qed.

Lemma read_nat_pretty_positive (p : positive) :
  read_nat (list_ascii_of_string (pretty p)) = Some (Z.pos p, [])
  /\ exists c cs, list_ascii_of_string (pretty p) = c :: cs
                  /\ is_Some (digit_of c).
Proof.
  unfold pretty, pretty_positive, pretty, pretty_N.
  rewrite decide_False by discriminate.
  destruct (read_digits_pretty_N_go (N.pos p) EmptyString 0) as [m Hm].
  cbn [list_ascii_of_string read_digits] in Hm.
  replace (0 * m + Z.of_N (N.pos p)) with (Z.pos p) in Hm by lia.
  unfold read_nat.
  destruct (list_ascii_of_string (pretty_N_go (N.pos p) EmptyString))
    as [|c cs] eqn:E; cbn [read_digits] in Hm; [discriminate|].
  destruct (digit_of c) as [d|] eqn:Ed; [|discriminate].
  split; [rewrite <- Hm; cbn [read_digits]; rewrite Ed; reflexivity|].
  exists c, cs. split; [reflexivity|]. rewrite Ed. eauto.
Qed.

Lemma int_of_str_pretty (k : Z) : int_of_str (pretty k) = OK k.
Proof.
  unfold int_of_str, read_int. destruct k as [|p|p].
  - reflexivity.
  - change (pretty (Z.pos p)) with (pretty p).
    destruct (read_nat_pretty_positive p) as (Hr & c & cs & E & [d Hd]).
    rewrite E in *.
    destruct (Ascii.eqb_spec c "-") as [->|_]; [discriminate|].
    rewrite Hr. reflexivity.
  - change (pretty (Z.neg p)) with ("-" +:+ pretty p).
    change (list_ascii_of_string ("-" +:+ pretty p))
      with ("-"%char :: list_ascii_of_string (pretty p)).
    cbn [Ascii.eqb Bool.eqb].
    destruct (read_nat_pretty_positive p) as (Hr & _).
    rewrite Hr. reflexivity.
Qed.

Lemma Z_leb_total (a b : Z) : Z.leb a b = true \/ Z.leb b a = true.
Proof. destruct (Z.leb_spec a b); [left; reflexivity|right; apply Z.leb_le; lia]. Qed.

(** *** The thread dict *)

(** The posts of threads 10 and 11, as the dict holds them. *)
Definition posts_of_10 : list post :=
  [patient_post 3 "3" "c"; patient_post 5 "3" "e";
   patient_post 2 "7" "b"; patient_post 4 "7" "d"].

Definition posts_of_11 : list post := [patient_post 1 "5" "a"].

Definition thread_dict : gmap string (list post) :=
  {[ "10"%string := posts_of_10; "11"%string := posts_of_11 ]}.

(** The dict of the table with the thread ids 10.2 and 10.7. *)
Definition fraction_dict : gmap string (list post) :=
  {[ "10"%string := [patient_post 2 "2" "b"] ]}.

Lemma convert_thread_table : convert_threads thread_table = OK thread_dict.
Proof. vm_compute. reflexivity. Qed.

Lemma convert_fraction_table : convert_threads fraction_table = OK fraction_dict.
Proof. vm_compute. reflexivity. Qed.

Lemma thread_posts_by_timestamp_witness :
  (forall a b, Z.leb a b = true \/ Z.leb b a = true)
  /\ convert_threads thread_table = OK thread_dict
  /\ thread_dict !! "10"%string = Some posts_of_10
  /\ exists id k rows,
       int_of_number id = OK k
       /\ "10"%string = pretty k
       /\ mapM make_post rows = OK posts_of_10
       /\ rows ≡ₚ filter (Threads.in_thread id) thread_table
       /\ Sorted (ThreadsFacts.by_timestamp number number Z Z.leb) rows.
Proof.
  split; [exact Z_leb_total|]. split; [exact convert_thread_table|].
  split; [reflexivity|].
  exact (ThreadsFacts.thread_posts_by_timestamp number number_leb int_of_number
           number int_of_number Z Z.leb pretty number_leb_total
           number_leb_trans number_leb_antisym Z_leb_total thread_table
           thread_dict "10" posts_of_10 convert_thread_table eq_refl).
Defined.

Lemma fraction_ids_NoDup : NoDup [fraction 102 10; fraction 107 10].
Proof. apply (bool_decide_unpack _). vm_compute. exact I. Qed.

Lemma fraction_ids_present id :
  id ∈ [fraction 102 10; fraction 107 10] <-> Threads.present fraction_table id.
Proof.
  split.
  - intros H. apply elem_of_cons in H as [->|H].
    { eexists. split; [left|reflexivity]. }
    apply elem_of_cons in H as [->|H]; [|inversion H].
    eexists. split; [right; left|reflexivity].
  - intros (r & Hr & Hid). each_row Hr; injection Hid as <-.
    + left.
    + right. left.
Qed.

(** The thread ids 10.2 and 10.7 have the one key "10". *)
Lemma fraction_table_shared_key :
  ~ Threads.distinct_keys int_of_number fraction_table.
Proof.
  intros H.
  assert (Heq : fraction 102 10 = fraction 107 10).
  { apply (H _ _ 10).
    - apply fraction_ids_present. left.
    - apply fraction_ids_present. right. left.
    - vm_compute. reflexivity.
    - vm_compute. reflexivity. }
  apply (f_equal (number_leb (fraction 107 10))) in Heq.
  vm_compute in Heq. discriminate.
Qed.

Lemma convert_threads_keys_witness :
  convert_threads fraction_table = OK fraction_dict
  /\ NoDup [fraction 102 10; fraction 107 10]
  /\ (is_Some (fraction_dict !! "10"%string)
      <-> exists id k, Threads.present fraction_table id
                       /\ int_of_number id = OK k /\ "10"%string = pretty k)
  /\ (size fraction_dict <= 2)%nat
  /\ (size fraction_dict = 2%nat
      <-> Threads.distinct_keys int_of_number fraction_table)
  /\ size fraction_dict = 1%nat
  /\ ~ Threads.distinct_keys int_of_number fraction_table.
Proof.
  destruct (ThreadsFacts.convert_threads_keys number number_leb int_of_number
              number int_of_number Z Z.leb pretty number_leb_total number_leb_trans
              number_leb_antisym fraction_table fraction_dict
              convert_fraction_table) as [Hkeys Hsize].
  destruct (Hsize _ fraction_ids_NoDup fraction_ids_present) as [Hle Heq].
  split; [exact convert_fraction_table|]. split; [exact fraction_ids_NoDup|].
  split; [exact (Hkeys "10"%string)|]. split; [exact Hle|]. split; [exact Heq|].
  split; [reflexivity|exact fraction_table_shared_key].
Defined.

(** The table with an infinity among its thread ids. *)
Lemma convert_threads_returns_witness :
  (is_ok (convert_threads thread_table) = true
   <-> Threads.accepted int_of_number int_of_number pretty thread_table)
  /\ convert_threads infinity_table
     = Raise (Exn OverflowError "cannot convert float infinity to integer")
  /\ ((exists id, Threads.present infinity_table id
                  /\ int_of_number id
                     = Raise (Exn OverflowError
                                "cannot convert float infinity to integer"))
      \/ (exists r, r ∈ infinity_table /\ Threads.has_thread_id r
                    /\ make_post r
                       = Raise (Exn OverflowError
                                  "cannot convert float infinity to integer"))).
Proof.
  split.
  - exact (proj1 (ThreadsFacts.convert_threads_returns number number_leb
                    int_of_number number int_of_number Z Z.leb pretty
                    number_leb_total number_leb_trans number_leb_antisym
                    thread_table)).
  - assert (H : convert_threads infinity_table
                = Raise (Exn OverflowError
                           "cannot convert float infinity to integer"))
      by (vm_compute; reflexivity).
    split; [exact H|].
    exact (proj2 (ThreadsFacts.convert_threads_returns number number_leb
                    int_of_number number int_of_number Z Z.leb pretty
                    number_leb_total number_leb_trans number_leb_antisym
                    infinity_table) _ H).
Defined.

(** *** The annotated records *)

(** A row read from a file with two empty cells. *)
Definition nan_row : record :=
  {[ "id"%string := PInt 5; "thread_id"%string := PNaN;
     "vaccine_types"%string := PNaN ]}.

Definition nan_record : record :=
  {[ "id"%string := PInt 5; "thread_id"%string := PNone;
     "vaccine_types"%string := PList [] ]}.

Lemma nan_record_converted :
  (convert_annotated [(7, nan_row)]).1 !! 0%nat = Some nan_record.
Proof. vm_compute. reflexivity. Qed.

Lemma converted_record_shape_witness :
  (convert_annotated [(7, nan_row)]).1 !! 0%nat = Some nan_record
  /\ dom nan_record = {["vaccine_types"%string]} ∪ dom nan_row
  /\ (forall key v, nan_record !! key = Some v -> v <> PNaN)
  /\ nan_row !! "thread_id"%string = Some PNaN
  /\ nan_record !! "thread_id"%string = Some PNone
  /\ nan_record !! "id"%string = Some (PInt 5).
Proof.
  destruct (AnnotatedFacts.converted_record_shape json_loads empty_array_truth
              nested_elements [(7, nan_row)] 0%nat 7 nan_row nan_record
              eq_refl nan_record_converted) as (Hdom & Hnan & Hcells).
  split; [exact nan_record_converted|]. split; [exact Hdom|].
  split; [exact Hnan|]. split; [reflexivity|]. split.
  - apply (proj1 (Hcells "thread_id"%string PNaN ltac:(discriminate) eq_refl)).
    reflexivity.
  - apply (proj2 (Hcells "id"%string (PInt 5) ltac:(discriminate) eq_refl));
      reflexivity.
Defined.

(** A table with the column [id] alone. *)
Definition id_table : dataframe :=
  [(0, {[ "id"%string := PInt 1 ]}); (1, {[ "id"%string := PInt 2 ]})].

Lemma id_table_no_column :
  Forall (fun p : Z * record => p.2 !! "vaccine_types"%string = None) id_table.
Proof. repeat constructor. Qed.

Lemma convert_annotated_without_column_witness :
  empty_array_truth <> Some true
  /\ Forall (fun p : Z * record => p.2 !! "vaccine_types"%string = None) id_table
  /\ (convert_annotated id_table).2
     = ["Row 0: vaccine_types parse error - 'vaccine_types'"%string;
        "Row 1: vaccine_types parse error - 'vaccine_types'"%string]
  /\ length (convert_annotated id_table).1 = length id_table
  /\ Forall (fun rec : record => rec !! "vaccine_types"%string = Some (PList []))
       (convert_annotated id_table).1.
Proof.
  assert (Hempty : empty_array_truth <> Some true) by discriminate.
  split; [exact Hempty|]. split; [exact id_table_no_column|].
  exact (AnnotatedFacts.convert_annotated_without_column json_loads
           empty_array_truth nested_elements id_table Hempty
           id_table_no_column).
Defined.

(** *** The validator *)

Definition converted : list record := (convert_annotated annotated_table).1.

Lemma validate_data_returns_witness :
  is_ok (Validate.validate_data int_of_str converted thread_dict
           annotated_table thread_table) = true
  /\ Forall (fun r : record => exists v, r !! "thread_id"%string = Some v
                                         /\ Validate.hashable v = true)
       converted
  /\ Forall (fun key => is_ok (int_of_str key) = true)
       (map_to_list thread_dict).*1
  /\ Forall (fun r : record => is_Some (r !! "vaccine_types"%string)) converted.
Proof.
  assert (H : is_ok (Validate.validate_data int_of_str converted thread_dict
                       annotated_table thread_table) = true)
    by (vm_compute; reflexivity).
  split; [exact H|].
  exact (proj1 (ValidateFacts.validate_data_returns number number Z int_of_str converted
                  thread_dict annotated_table thread_table) H).
Defined.

Lemma covered_records :
  Forall (fun r : record =>
            exists k, r !! "thread_id"%string = Some (PInt k)
                      /\ exists row id,
                           row ∈ thread_table
                           /\ Threads.in_thread id row
                           /\ int_of_number id = OK k)
    [row_pfizer; row_missing].
Proof.
  constructor; [|constructor; [|constructor]].
  - exists 10. split; [reflexivity|].
    exists (thread_row (Some (whole 10)) 2 (Some 7) "b"), (whole 10).
    split; [right; left|]. split; [reflexivity|apply int_of_number_whole].
  - exists 11. split; [reflexivity|].
    exists (thread_row (Some (whole 11)) 1 (Some 5) "a"), (whole 11).
    split; [left|]. split; [reflexivity|apply int_of_number_whole].
Qed.

Lemma no_missing_thread_ids_witness :
  (forall k : Z, int_of_str (pretty k) = OK k)
  /\ convert_threads thread_table = OK thread_dict
  /\ Validate.missing_in_threads int_of_str [row_pfizer; row_missing] thread_dict
     = OK [].
Proof.
  split; [exact int_of_str_pretty|]. split; [exact convert_thread_table|].
  exact (ValidateFacts.no_missing_thread_ids number number_leb int_of_number number int_of_number Z
           Z.leb pretty int_of_str number_leb_total number_leb_trans
           number_leb_antisym int_of_str_pretty [row_pfizer; row_missing]
           thread_table thread_dict convert_thread_table covered_records).
Defined.

(** *** Encryption *)

Lemma encrypt_data_outcome_witness :
  fst (Crypto.encrypt_data xor_block fold_kdf counter_bytes plaintext
         cjk_password 0%nat) = Raise CryptoFacts.latin1_error
  /\ fst (Crypto.encrypt_data xor_block fold_kdf counter_bytes [0xD800]
            password 0%nat) = Raise CryptoFacts.utf8_error
  /\ is_ok (fst (Crypto.encrypt_data xor_block fold_kdf counter_bytes plaintext
                   password 0%nat)) = true.
Proof.
  split; [|split].
  - apply (proj1 (CryptoFacts.encrypt_data_outcome xor_block fold_kdf nat
                    counter_bytes fold_kdf_length counter_bytes_length
                    plaintext cjk_password 0%nat)).
    reflexivity.
  - apply (proj1 (proj2 (CryptoFacts.encrypt_data_outcome xor_block fold_kdf nat
                           counter_bytes fold_kdf_length counter_bytes_length
                           [0xD800] password 0%nat))).
    + apply Unicode.latin1_encode_total, Checks.password_latin1.
    + reflexivity.
  - apply (proj1 (proj2 (proj2 (CryptoFacts.encrypt_data_outcome xor_block
                                  fold_kdf nat counter_bytes fold_kdf_length
                                  counter_bytes_length plaintext password
                                  0%nat)))).
    + apply Unicode.latin1_encode_total, Checks.password_latin1.
    + apply Unicode.utf8_encode_total, Checks.plaintext_scalar.
Defined.

Lemma encrypt_data_text_lengths_witness :
  Crypto.encrypt_data xor_block fold_kdf counter_bytes plaintext password 0%nat
  = (OK ("nOyjh8IXZm60h2RbvpXILw==", "CzBVep/E6Q4zWH2ix+wRNg==",
         "W4Clyu8UOV6DqM3yFzxhhg=="), 32%nat)
  /\ String.length "CzBVep/E6Q4zWH2ix+wRNg==" = 24%nat
  /\ String.length "W4Clyu8UOV6DqM3yFzxhhg==" = 24%nat
  /\ exists data,
       Unicode.utf8_encode plaintext = Some data
       /\ Z.of_nat (String.length "nOyjh8IXZm60h2RbvpXILw==")
          = 4 * ((16 * (Crypto.len data / 16 + 1) + 2) / 3).
Proof.
  assert (H1 : Crypto.encrypt_data xor_block fold_kdf counter_bytes plaintext
                 password 0%nat
               = (OK ("nOyjh8IXZm60h2RbvpXILw==", "CzBVep/E6Q4zWH2ix+wRNg==",
                      "W4Clyu8UOV6DqM3yFzxhhg=="), 32%nat))
    by (vm_compute; reflexivity).
  split; [exact H1|].
  exact (CryptoFacts.encrypt_data_text_lengths xor_block fold_kdf nat
           counter_bytes xor_block_length counter_bytes_length
           plaintext password 0%nat 32%nat _ _ _ H1).
Defined.

(** *** The run *)

Lemma validation_orphan :
  validation annotated_table orphan_table
  = OK (["Threads post count mismatch: 1 vs 2"%string],
        ["Thread IDs in annotated but not in threads: 2"%string;
         "Records with empty vaccine_types: 2"%string]).
Proof. vm_compute. reflexivity. Qed.

Lemma validation_fraction :
  validation annotated_table fraction_table
  = OK (["Threads post count mismatch: 1 vs 2"%string],
        ["Thread IDs in annotated but not in threads: 2"%string;
         "Records with empty vaccine_types: 2"%string]).
Proof. vm_compute. reflexivity. Qed.


(** The table with the thread ids 10.2 and 10.7 has no row without thread
    id, and the run has its hard error all the same. *)
Lemma run_hard_error_witness :
  validation annotated_table fraction_table
  = OK (["Threads post count mismatch: 1 vs 2"%string],
        ["Thread IDs in annotated but not in threads: 2"%string;
         "Records with empty vaccine_types: 2"%string])
  /\ Forall Threads.has_thread_id fraction_table
  /\ exists threads_dict,
       convert_threads fraction_table = OK threads_dict
       /\ (["Threads post count mismatch: 1 vs 2"%string] <> []
           <-> ~ (Forall Threads.has_thread_id fraction_table
                  /\ Threads.distinct_keys int_of_number fraction_table))
       /\ (["Threads post count mismatch: 1 vs 2"%string] = []
           \/ ((Threads.total_posts threads_dict < length fraction_table)%nat
               /\ ["Threads post count mismatch: 1 vs 2"%string]
                  = ["Threads post count mismatch: "
                     +:+ pretty (Threads.total_posts threads_dict)
                     +:+ " vs " +:+ pretty (length fraction_table)])).
Proof.
  split; [exact validation_fraction|].
  split; [exact Checks.fraction_table_has_ids|].
  exact (PipelineFacts.run_hard_error number number_leb int_of_number number int_of_number Z Z.leb
           pretty json_loads empty_array_truth nested_elements int_of_str
           number_leb_total number_leb_trans number_leb_antisym
           annotated_table fraction_table _ _ validation_fraction).
Defined.

Lemma main_orphan :
  main password (start_world orphan_table)
  = (OK false, start_world orphan_table).
Proof. vm_compute. reflexivity. Qed.

Lemma main_false_witness :
  main password (start_world orphan_table)
  = (OK false, start_world orphan_table)
  /\ start_world orphan_table = start_world orphan_table
  /\ (Z.of_nat (length password) < 8
      \/ Pipeline.annotated_csv number number Z nat (start_world orphan_table) = None
      \/ Pipeline.threads_csv number number Z nat (start_world orphan_table) = None
      \/ exists annotated_df threads_df errors warnings,
           Pipeline.annotated_csv number number Z nat (start_world orphan_table)
           = Some annotated_df
           /\ Pipeline.threads_csv number number Z nat (start_world orphan_table)
              = Some threads_df
           /\ validation annotated_df threads_df = OK (errors, warnings)
           /\ errors <> []).
Proof.
  split; [exact main_orphan|].
  exact (PipelineFacts.main_false number number_leb int_of_number number int_of_number Z Z.leb pretty
           json_loads empty_array_truth nested_elements int_of_str xor_block
           fold_kdf nat counter_bytes json_dump_records json_dumps_threads
           json_dump_config password (start_world orphan_table) _ main_orphan).
Defined.







End FactChecks.
